(* ===== verification/_CoqProject ===== *)
-Q . S2P
Prelude.v
JsValue.v
JsString.v
Entry.v
Preferences.v
Gemini.v
MerriamWebster.v
CacheKey.v
Handler.v
Interleaving.v
