(* ===== verification/Prelude.v ===== *)
(** * A verification development of the Quick Definition background worker

    The repository (semantix) ships a browser extension whose background
    service worker, [src/extension/background.js], answers two kinds of
    messages from the content script:
    - [getDefinition]: read the user's settings from [chrome.storage.local],
      derive a cache key, answer from the cache when it holds a value,
      otherwise fetch the definition from one of three providers
      (Merriam-Webster, the Gemini proxy, the Cambridge proxy), normalize the
      provider's payload into one entry shape ([normalizeMwData],
      [normalizeGeminiData], or none for the Cambridge proxy, whose payload
      already has that shape), enrich single Gemini words with Cambridge
      audio, trim the entry by the display preferences
      ([applyDisplayPreferences]), store it in the cache and answer;
    - [translateSentence]: read the target language, derive a cache key from
      the percent-encoded sentence, answer from the cache or fetch a
      translation, store it and answer.

    ** How the code is modelled

    Every value that crosses the code is a JavaScript value, and the code
    relies on JavaScript's semantics for it: property access on [undefined]
    throws, [||] tests truthiness, template literals call ToString, spread
    copies own properties.  The development therefore models the values
    themselves ([JsValue.jsval]: undefined, null, booleans, integral numbers,
    strings, arrays, objects as association lists in insertion order) and the
    operations the code applies to them, and translates each function of
    the source over that model, statement by statement, with exceptions as
    values of [Prelude.completion] ([Normal] or [Throw]).  Over this faithful
    layer sits an abstract one: the canonical entry of the spec as typed
    records ([Entry]), with an encoding into [jsval]; refinement theorems
    state that the JavaScript-level functions, applied to encoded typed
    inputs, compute the encoding of the typed specification functions.

    Files, in dependency order:
    - [Prelude] (this file): the completion monad of JS exceptions, its
      notation in [js_scope], the hint and rewrite databases, shared lemmas
      on strings, lists and monadic list traversals.
    - [JsValue]: [jsval], truthiness, [||], ToString, ToNumber, property
      access with the TypeErrors of [undefined]/[null], object update and
      spread, array spread; the key-uniqueness invariant of objects.
    - [JsString]: the string methods the code calls ([startsWith],
      [charAt], [split(':')[0]], [replace] with the markup regexes,
      [toLowerCase], [split(/\s+/)], [encodeURIComponent] and the extra
      escaping of [! ' ( ) *]).
    - [Entry]: the canonical entry (headword, translation, parts of speech,
      verbs, pronunciations, senses with examples) as records, the
      [JsEncode] interface (encode, decode, decode after encode) and its
      instances.
    - [Preferences]: [applyDisplayPreferences] over [jsval] (lines 67-86),
      JavaScript [slice], the typed projection [project] of the spec and the
      refinement between them; idempotence, scope and example-count bounds.
    - [Gemini]: [normalizeGeminiData] (lines 38-63), the typed adapter it
      refines, and its error behaviour.
    - [MerriamWebster]: [normalizeMwData] (lines 16-36): the audio bucket
      rule, headword extraction, definition fallback, the two example
      strategies and which structural failures are swallowed.
    - [CacheKey]: the display-settings key (line 98) and the sentence key
      (lines 195-198): determinism and injectivity.
    - [Handler]: the [onMessage] listener (lines 90-231) over a storage map
      ([gmap string jsval]) and a fetch oracle, with its effects recorded
      as a trace; each request runs atomically.
    - [Interleaving]: the same handlers cut into their callbacks, and a
      step relation over the shared storage that interleaves the
      callbacks of any number of requests with writes of the settings;
      an executable scheduler replays concrete interleavings.

    ** What the theorems show

    The theorems that carry a claim number ([C1] to [C31]) are, in
    decreasing order of importance:
    - Refinement ([C1] to [C4]): [applyDisplayPreferences],
      [normalizeGeminiData] and [normalizeMwData] compute, on encoded typed
      inputs, the encodings of the spec's projection and adapters; end to
      end, a Gemini phrase lookup stores and answers the projection of the
      adapted entry ([Handler.Listener.getDefinition_gemini_phrase]).
    - The listener, one request at a time ([C5], [C6], [C13], [C25] to
      [C30]): the cache only ever receives values in the image of the
      display projection, under the lookup's key; every handled message is
      answered exactly once, as the run's last effect; an answer is served
      again from the cache; cache hits, the missing API key, phrases versus
      words, [translateSentence].
    - The listener under interleaving ([C10] to [C12]): in every reachable
      world of concurrent requests and settings writes the cache stays
      coherent with its keys, and every successful definition answer is a
      projection under settings with the request's own key, unless the two
      key families meet, which they do ([C12]).  Two lemmas check the model
      itself: the callbacks run back to back are the atomic run
      ([Interleaving.dphases_sequential]), and every request can complete
      ([Interleaving.request_completes]).
    - Error behaviour and the findings ([C7] to [C9], [C12], [C19], [C21],
      [C24], [C28], [C30]): see below.
    - Keys ([C14], [C15], [C31]): both cache keys are injective in their
      fields, and the sentence encoding is key-safe.
    - Projection laws ([C16] to [C18]), adapter invariants ([C20], [C22])
      and the audio bucket rule ([C23]).

    ** Findings

    - A network rejection of the Cambridge enrichment request fails the
      whole Gemini single-word lookup: the [.catch] of line 133 covers
      [res.json()] only and [Promise.all] rejects ([C7]); the spec requires
      the enrichment failure to be swallowed.
    - A Gemini form with no definitions ([C8]) and a Merriam-Webster entry
      with [def = []] ([C9]) make the adapters throw where the spec asks for
      [null] or zero examples.
    - The display key and the sentence key share the prefix [qdp_]: with the
      provider stored as ["sentence"] a lookup answers a cached translation
      ([C12]).
    - A Gemini payload without headword yields [word: undefined] ([C21]).
    - The display key uses the raw stored scope and count, so equivalent
      settings get different keys ([C24]).
    - Projection leaves the [pos] array untrimmed ([C19]); a term with
      surrounding whitespace counts as one word and gets enriched ([C28]);
      falsy translations are cached but never served ([C30]).

    ** Bounds and fuel

    [JsString.strip_tokens] is the only function with fuel: the [replace]
    scans of lines 31 and 33 are run with the length of the string as
    fuel, which is enough because each step consumes at least one character
    ([JsString.strip_tokens_fuel_enough]: any fuel at least the length
    gives the same result).  All other functions are structural.

    ** What is not modelled
    - Numbers are integers ([Z]); fractional numbers and NaN literals do not
      occur in the payloads the code reads.  ToNumber of a string accepts
      optional sign and decimal digits only.
    - Strings are byte strings ([string] of [ascii]); lowercasing and the
      whitespace class of [\s] are modelled on ASCII; [encodeURIComponent]
      escapes each byte of a non-ASCII character, which is its behaviour on
      well-formed UTF-8 (it throws on lone surrogates, not modelled).
    - TypeError messages follow V8's wording; no theorem depends on them.
    - Networking, the chrome APIs, [console.log] and the content script are
      not modelled: fetch results are inputs (an oracle from URL to outcome),
      storage is a finite map, logging has no effect on the state.
    - [storage.get] reads at the moment its callback runs, and
      [storage.set] writes at once; the two fetches of a Gemini word settle
      together, [Promise.all]'s order of settlement being an input of the
      network.
*)

From stdpp Require Export base list strings sets.
From Stdlib Require Export ZArith Ascii.

Declare Scope js_scope.
Delimit Scope js_scope with js.


(** ** Exceptions *)

(** The exceptions the modelled code raises or observes: a [TypeError] from
    the runtime, a [SyntaxError] from [Response.json()], and an [Error]
    built with [new Error(message)]. *)
Inductive jserror :=
| TypeError (msg : string)
| SyntaxError (msg : string)
| PlainError (msg : string).

Definition error_message (e : jserror) : string :=
  match e with TypeError m | SyntaxError m | PlainError m => m end.

(** The completion of a synchronous computation: a value or a thrown
    exception. *)
Inductive completion (A : Type) :=
| Normal (a : A)
| Throw (e : jserror).
Arguments Normal {A} a.
Arguments Throw {A} e.

Definition cbind {A B} (c : completion A) (k : A -> completion B) : completion B :=
  match c with Normal a => k a | Throw e => Throw e end.

Definition cmap {A B} (f : A -> B) (c : completion A) : completion B :=
  match c with Normal a => Normal (f a) | Throw e => Throw e end.

Notation "x <- c ;; k" := (cbind c (fun x => k))
  (at level 100, c at next level, right associativity) : js_scope.

Open Scope js_scope.

(** [xs.map(f)] where [f] may throw: the first exception aborts. *)
Fixpoint cmap_list {A B} (f : A -> completion B) (xs : list A) : completion (list B) :=
  match xs with
  | [] => Normal []
  | x :: xs' => y <- f x ;; ys <- cmap_list f xs' ;; Normal (y :: ys)
  end.

(** [xs.find(p)] where [p] may throw. *)
Fixpoint cfind {A} (p : A -> completion bool) (xs : list A) : completion (option A) :=
  match xs with
  | [] => Normal None
  | x :: xs' => b <- p x ;; if b then Normal (Some x) else cfind p xs'
  end.

(** ** Automation *)

Create HintDb semantix.

Lemma cbind_normal {A B} (a : A) (k : A -> completion B) : cbind (Normal a) k = k a.
Proof. reflexivity. Qed.

Lemma cbind_throw {A B} e (k : A -> completion B) : cbind (Throw e) k = Throw e.
Proof. reflexivity. Qed.

Lemma cbind_assoc {A B C} (c : completion A) (k : A -> completion B) (h : B -> completion C) :
  cbind (cbind c k) h = cbind c (fun a => cbind (k a) h).
Proof. by destruct c. Qed.

Lemma cbind_eq_normal {A B} (c : completion A) (k : A -> completion B) b :
  cbind c k = Normal b <-> exists a, c = Normal a /\ k a = Normal b.
Proof. destruct c; simpl; split; [eauto|intros (? & [=<-] & ?)|done|intros (? & ? & ?)]; done. Qed.

Lemma cbind_eq_throw {A B} (c : completion A) (k : A -> completion B) e :
  cbind c k = Throw e <-> c = Throw e \/ exists a, c = Normal a /\ k a = Throw e.
Proof.
  destruct c as [a|e']; simpl; split.
  - eauto.
  - by intros [?|(? & [=<-] & ?)].
  - intros [= <-]; auto.
  - intros [[= ->]|(? & ? & ?)]; [done|discriminate].
Qed.

Create Rewrite HintDb js_simpl.
#[export] Hint Rewrite @cbind_normal @cbind_throw : js_simpl.

(** Split every [cbind _ _ = Normal _] hypothesis into its two steps. *)
Ltac inv_cbind :=
  repeat match goal with
  | H : cbind _ _ = Normal _ |- _ =>
      apply cbind_eq_normal in H; destruct H as (? & ? & H)
  | H : Normal _ = Normal _ |- _ => injection H as H; subst
  end.

(** ** Monadic list traversals *)

Lemma cmap_list_normal {A B} (f : A -> completion B) (g : A -> B) xs :
  (forall x, x ∈ xs -> f x = Normal (g x)) -> cmap_list f xs = Normal (map g xs).
Proof.
  induction xs as [|x xs IH]; intros Hf; simpl; [done|].
  rewrite Hf by set_solver. rewrite IH by set_solver. done.
Qed.

Lemma cmap_list_map_normal {A B C} (f : B -> completion C) (h : A -> B) (g : A -> C) xs :
  (forall x, x ∈ xs -> f (h x) = Normal (g x)) -> cmap_list f (map h xs) = Normal (map g xs).
Proof.
  intros Hf. induction xs as [|x xs IH]; simpl; [done|].
  rewrite Hf by set_solver. rewrite IH by set_solver. done.
Qed.

(** A traversal by a function whose results are its own fixed points is
    itself idempotent. *)
Lemma cmap_list_idem {A} (f : A -> completion A) xs ys :
  (forall x y, f x = Normal y -> f y = Normal y) ->
  cmap_list f xs = Normal ys -> cmap_list f ys = Normal ys.
Proof.
  intros Hf. revert ys; induction xs as [|x xs IH]; intros ys H; simpl in H.
  - by injection H as <-.
  - inv_cbind. simpl. rewrite (Hf x) by done. by rewrite (IH _ ltac:(eassumption)).
Qed.

Lemma cmap_list_length {A B} (f : A -> completion B) xs ys :
  cmap_list f xs = Normal ys -> length ys = length xs.
Proof.
  revert ys; induction xs as [|x xs IH]; intros ys H; simpl in *.
  - by injection H as <-.
  - inv_cbind. simpl. by rewrite (IH _ ltac:(eassumption)).
Qed.

Lemma cmap_list_elem {A B} (f : A -> completion B) xs ys y :
  cmap_list f xs = Normal ys -> y ∈ ys -> exists x, x ∈ xs /\ f x = Normal y.
Proof.
  revert ys; induction xs as [|x xs IH]; intros ys H Hy; simpl in *.
  - injection H as <-. set_solver.
  - inv_cbind. apply elem_of_cons in Hy as [->|Hy]; [exists x; set_solver|].
    destruct (IH _ ltac:(eassumption) Hy) as (x' & ? & ?). exists x'. set_solver.
Qed.

(** A traversal throws as soon as one of its calls throws. *)
Lemma cmap_list_throws {A B} (f : A -> completion B) xs x e :
  x ∈ xs -> f x = Throw e -> exists e', cmap_list f xs = Throw e'.
Proof.
  intros Hx Hf. induction xs as [|y xs IH]; [set_solver|simpl].
  apply elem_of_cons in Hx as [->|Hx]; [rewrite Hf; eauto|].
  destruct (f y) as [b|e']; simpl; [|eauto].
  destruct (IH Hx) as [e'' ->]. eauto.
Qed.

Lemma cfind_total {A} (p : A -> bool) xs :
  cfind (fun x => Normal (p x)) xs = Normal (List.find p xs).
Proof. induction xs as [|x xs IH]; simpl; [done|]. by destruct (p x). Qed.

(** ** Strings *)

(** stdpp makes [String.append] opaque to [simpl]; these two equations
    are its computation rules. *)
Lemma string_app_empty (b : string) : "" +:+ b = b.
Proof. reflexivity. Qed.

Lemma string_app_cons x (a b : string) : String x a +:+ b = String x (a +:+ b).
Proof. reflexivity. Qed.

#[export] Hint Rewrite string_app_empty string_app_cons : js_simpl.

Lemma string_app_assoc (a b c : string) : (a +:+ b) +:+ c = a +:+ (b +:+ c).
Proof. induction a as [|x a IH]; rewrite ?string_app_cons; [done|by rewrite IH]. Qed.

Lemma string_app_nil_r (a : string) : a +:+ "" = a.
Proof. induction a as [|x a IH]; rewrite ?string_app_cons; [done|by rewrite IH]. Qed.

Lemma string_app_inj_l (s a b : string) : s +:+ a = s +:+ b -> a = b.
Proof.
  induction s as [|x s IH]; rewrite ?string_app_cons; [done|].
  intros H; injection H; auto.
Qed.

Lemma string_length_app (a b : string) :
  String.length (a +:+ b) = String.length a + String.length b.
Proof. induction a as [|x a IH]; rewrite ?string_app_cons; simpl; [done|by rewrite IH]. Qed.

#[export] Hint Rewrite string_app_assoc string_app_nil_r : js_simpl.
#[export] Hint Resolve string_app_inj_l : semantix.

(** ** Strings as lists of characters, and splitting at a separator *)

Lemma list_ascii_of_string_app (a b : string) :
  String.list_ascii_of_string (a +:+ b) = String.list_ascii_of_string a ++ String.list_ascii_of_string b.
Proof. induction a as [|x a IH]; rewrite ?string_app_cons; simpl; [done|by rewrite IH]. Qed.

Lemma list_ascii_of_string_inj (a b : string) :
  String.list_ascii_of_string a = String.list_ascii_of_string b -> a = b.
Proof.
  intros H. rewrite <- (String.string_of_list_ascii_of_string a), <- (String.string_of_list_ascii_of_string b).
  by rewrite H.
Qed.

(** Two lists that agree after their first separator, with no separator
    before it, agree before it too. *)
Lemma split_sep_l {A} (sep : A) (a1 a2 r1 r2 : list A) :
  sep ∉ a1 -> sep ∉ a2 -> a1 ++ sep :: r1 = a2 ++ sep :: r2 -> a1 = a2 /\ r1 = r2.
Proof.
  revert a2; induction a1 as [|x a1 IH]; intros [|y a2] H1 H2 H; simpl in H.
  - by injection H.
  - injection H as -> _. set_solver.
  - injection H as <- _. set_solver.
  - injection H as -> H. destruct (IH a2) as [-> ->]; set_solver.
Qed.

Lemma split_sep_r {A} (sep : A) (a1 a2 r1 r2 : list A) :
  sep ∉ a1 -> sep ∉ a2 -> r1 ++ sep :: a1 = r2 ++ sep :: a2 -> r1 = r2 /\ a1 = a2.
Proof.
  intros H1 H2 H. apply (f_equal reverse) in H. rewrite !reverse_app, !reverse_cons in H.
  rewrite <- !app_assoc in H. simpl in H.
  destruct (split_sep_l sep (reverse a1) (reverse a2) (reverse r1) (reverse r2)) as [Ha Hr];
    [by rewrite elem_of_reverse|by rewrite elem_of_reverse|done|].
  split; [rewrite <- (reverse_involutive r1), Hr|rewrite <- (reverse_involutive a1), Ha]; apply reverse_involutive.
Qed.
