(* ===== verification/JsValue.v ===== *)
(** * JavaScript values and the operations the worker applies to them

    [jsval] is the value domain of [background.js]: JSON payloads parsed by
    [Response.json()], values read from [chrome.storage.local], and the
    object and array literals the code builds.  Objects are association
    lists in property-creation order (the order [JSON.stringify] and spread
    observe).  The operations are the language's: truthiness for [||], [&&]
    and [!], ToString for template literals, ToNumber for [>], property
    access (which throws on [undefined] and [null]), property assignment,
    object spread [{...v}] and array spread [[...v]]. *)

From S2P Require Import Prelude.
From Stdlib Require Import DecimalString DecimalZ.

#[local] Set Warnings "-register-all".
Inductive jsval :=
| JUndefined
| JNull
| JBool (b : bool)
| JNum (n : Z)
| JStr (s : string)
| JArr (xs : list jsval)
| JObj (fs : list (string * jsval)).

(** ** Truthiness, [||], [typeof], [===] *)

Definition js_truthy (v : jsval) : bool :=
  match v with
  | JUndefined | JNull => false
  | JBool b => b
  | JNum n => negb (Z.eqb n 0)
  | JStr s => negb (String.eqb s "")
  | JArr _ | JObj _ => true
  end.

(** [a || b] returns its first operand when that is truthy. *)
Definition js_or (a b : jsval) : jsval := if js_truthy a then a else b.

(** [a && b] where [b] is evaluated only when [a] is truthy. *)
Definition js_and_then (a : jsval) (b : completion jsval) : completion jsval :=
  if js_truthy a then b else Normal a.

Definition js_typeof (v : jsval) : string :=
  match v with
  | JUndefined => "undefined"
  | JBool _ => "boolean"
  | JNum _ => "number"
  | JStr _ => "string"
  | JNull | JArr _ | JObj _ => "object"
  end.

(** [v === 'lit'] for a string literal. *)
Definition js_eq_str (v : jsval) (lit : string) : bool :=
  match v with JStr s => String.eqb s lit | _ => false end.

Definition js_is_undefined (v : jsval) : bool :=
  match v with JUndefined => true | _ => false end.

(** [Array.isArray(v)] *)
Definition js_is_array (v : jsval) : bool :=
  match v with JArr _ => true | _ => false end.

(** ** ToString (template literals, [String(v)], [new Error(v)]) *)

Definition nat_to_string (n : nat) : string := NilZero.string_of_uint (Nat.to_uint n).

Definition z_to_string (n : Z) : string := NilZero.string_of_int (Z.to_int n).

Fixpoint js_to_string (v : jsval) : string :=
  match v with
  | JUndefined => "undefined"
  | JNull => "null"
  | JBool b => if b then "true" else "false"
  | JNum n => z_to_string n
  | JStr s => s
  | JArr xs =>
      (* Array.prototype.join: undefined and null elements print as "" *)
      String.concat ","
        (map (fun x => match x with JUndefined | JNull => "" | _ => js_to_string x end) xs)
  | JObj _ => "[object Object]"
  end.

(** ** ToNumber ([None] is NaN) and the relational operator [>] *)

Definition js_string_to_number (s : string) : option Z :=
  match s with
  | "" => Some 0%Z
  | String "+"%char s' => option_map (fun d => Z.of_int (Decimal.Pos d)) (NilZero.uint_of_string s')
  | _ => option_map Z.of_int (NilZero.int_of_string s)
  end.

Definition js_to_number (v : jsval) : option Z :=
  match v with
  | JUndefined => None
  | JNull => Some 0%Z
  | JBool b => Some (if b then 1 else 0)%Z
  | JNum n => Some n
  | JStr s => js_string_to_number s
  | JArr _ => js_string_to_number (js_to_string v)
  | JObj _ => None
  end.

(** Lexicographic order on byte strings (JavaScript compares code units). *)
Fixpoint string_ltb (a b : string) : bool :=
  match a, b with
  | "", String _ _ => true
  | String x a', String y b' =>
      if Ascii.eqb x y then string_ltb a' b'
      else (Ascii.nat_of_ascii x <? Ascii.nat_of_ascii y)%nat
  | _, _ => false
  end.

(** ToPrimitive with the default hint: arrays and objects become strings. *)
Definition js_to_primitive (v : jsval) : jsval :=
  match v with JArr _ | JObj _ => JStr (js_to_string v) | _ => v end.

(** [a > b]: strings compare as strings, everything else as numbers, and a
    comparison with NaN is false. *)
Definition js_gt (a b : jsval) : bool :=
  match js_to_primitive a, js_to_primitive b with
  | JStr x, JStr y => string_ltb y x
  | pa, pb =>
      match js_to_number pa, js_to_number pb with
      | Some x, Some y => (y <? x)%Z
      | _, _ => false
      end
  end.

(** ** Property access *)

Definition read_error (base key : string) : jserror :=
  TypeError ("Cannot read properties of " +:+ base +:+ " (reading '" +:+ key +:+ "')").

Fixpoint assoc_lookup (k : string) (fs : list (string * jsval)) : option jsval :=
  match fs with
  | [] => None
  | (k', v) :: fs' => if String.eqb k k' then Some v else assoc_lookup k fs'
  end.

(** [v.k] for a property name [k] that is not an array index. *)
Definition js_get (v : jsval) (k : string) : completion jsval :=
  match v with
  | JUndefined => Throw (read_error "undefined" k)
  | JNull => Throw (read_error "null" k)
  | JArr xs =>
      Normal (if String.eqb k "length" then JNum (Z.of_nat (length xs)) else JUndefined)
  | JStr s =>
      Normal (if String.eqb k "length" then JNum (Z.of_nat (String.length s)) else JUndefined)
  | JObj fs => Normal (default JUndefined (assoc_lookup k fs))
  | JBool _ | JNum _ => Normal JUndefined
  end.

(** [v[i]] for an integer index [i]. *)
Definition js_idx (v : jsval) (i : nat) : completion jsval :=
  match v with
  | JUndefined => Throw (read_error "undefined" (nat_to_string i))
  | JNull => Throw (read_error "null" (nat_to_string i))
  | JArr xs => Normal (default JUndefined (nth_error xs i))
  | JStr s => Normal (match String.get i s with Some c => JStr (String c "") | None => JUndefined end)
  | JObj fs => Normal (default JUndefined (assoc_lookup (nat_to_string i) fs))
  | JBool _ | JNum _ => Normal JUndefined
  end.

(** The receiver of an array method [v.m(...)]: an array, or the TypeError
    of reading [m] from [undefined]/[null], or of calling a non-function. *)
Definition js_array_receiver (v : jsval) (expr m : string) : completion (list jsval) :=
  match v with
  | JArr xs => Normal xs
  | JUndefined => Throw (read_error "undefined" m)
  | JNull => Throw (read_error "null" m)
  | _ => Throw (TypeError (expr +:+ "." +:+ m +:+ " is not a function"))
  end.

(** The receiver of a string method [v.m(...)]. *)
Definition js_string_receiver (v : jsval) (expr m : string) : completion string :=
  match v with
  | JStr s => Normal s
  | JUndefined => Throw (read_error "undefined" m)
  | JNull => Throw (read_error "null" m)
  | _ => Throw (TypeError (expr +:+ "." +:+ m +:+ " is not a function"))
  end.

(** ** Property assignment and spread *)

(** [o.k = v] on the property list of an object: an existing property keeps
    its position, a new one is appended. *)
Fixpoint set_field (fs : list (string * jsval)) (k : string) (v : jsval) : list (string * jsval) :=
  match fs with
  | [] => [(k, v)]
  | (k', v') :: fs' => if String.eqb k k' then (k', v) :: fs' else (k', v') :: set_field fs' k v
  end.

(** [o.k = v] on any value (sloppy mode: assignment to a primitive is
    ignored). *)
Definition js_put (o : jsval) (k : string) (v : jsval) : completion jsval :=
  match o with
  | JUndefined => Throw (TypeError ("Cannot set properties of undefined (setting '" +:+ k +:+ "')"))
  | JNull => Throw (TypeError ("Cannot set properties of null (setting '" +:+ k +:+ "')"))
  | JObj fs => Normal (JObj (set_field fs k v))
  | _ => Normal o
  end.

Fixpoint string_chars (s : string) : list jsval :=
  match s with "" => [] | String c s' => JStr (String c "") :: string_chars s' end.

Definition indexed {A} (xs : list A) : list (string * A) :=
  imap (fun i x => (nat_to_string i, x)) xs.

(** The own enumerable properties that [{...v}] copies. *)
Definition own_props (v : jsval) : list (string * jsval) :=
  match v with
  | JObj fs => fs
  | JArr xs => indexed xs
  | JStr s => indexed (string_chars s)
  | _ => []
  end.

(** [{...v, k: x}] *)
Definition spread_with (v : jsval) (k : string) (x : jsval) : jsval :=
  JObj (set_field (own_props v) k x).

(** [[...v]]: arrays and strings are iterable, everything else throws. *)
Definition js_iterate (v : jsval) (expr : string) : completion (list jsval) :=
  match v with
  | JArr xs => Normal xs
  | JStr s => Normal (string_chars s)
  | _ => Throw (TypeError (expr +:+ " is not iterable"))
  end.

(** ** Well-formed values: property names are unique in every object *)

Fixpoint js_wf (v : jsval) : Prop :=
  match v with
  | JArr xs => (fix go l := match l with [] => True | x :: l' => js_wf x /\ go l' end) xs
  | JObj fs =>
      NoDup (map fst fs) /\
      (fix go l := match l with [] => True | (_, x) :: l' => js_wf x /\ go l' end) fs
  | _ => True
  end.

(** ** Lemmas *)

(** Property access throws exactly on [undefined] and [null]. *)
Lemma js_get_throw_iff v k :
  (exists e, js_get v k = Throw e) <-> v = JUndefined \/ v = JNull.
Proof. destruct v; simpl; split; intros H; try destruct H; eauto; discriminate. Qed.

Lemma js_get_normal_obj fs k : js_get (JObj fs) k = Normal (default JUndefined (assoc_lookup k fs)).
Proof. reflexivity. Qed.

Lemma assoc_lookup_set_field_eq fs k v : assoc_lookup k (set_field fs k v) = Some v.
Proof.
  induction fs as [|[k' v'] fs IH]; simpl; [by rewrite String.eqb_refl|].
  destruct (String.eqb_spec k k') as [->|Hne]; simpl.
  - by rewrite String.eqb_refl.
  - by rewrite (proj2 (String.eqb_neq k k') Hne).
Qed.

Lemma assoc_lookup_set_field_ne fs k k2 v :
  k2 <> k -> assoc_lookup k2 (set_field fs k v) = assoc_lookup k2 fs.
Proof.
  intros Hne. induction fs as [|[k' v'] fs IH]; simpl.
  - by rewrite (proj2 (String.eqb_neq k2 k) Hne).
  - destruct (String.eqb_spec k k') as [->|Hk]; simpl.
    + by rewrite (proj2 (String.eqb_neq k2 k') Hne).
    + by destruct (String.eqb k2 k').
Qed.

Lemma set_field_keys fs k v :
  map fst (set_field fs k v) = if decide (k ∈ map fst fs) then map fst fs else map fst fs ++ [k].
Proof.
  induction fs as [|[k' v'] fs IH]; simpl.
  - done.
  - destruct (String.eqb_spec k k') as [->|Hk]; simpl.
    + destruct (decide (k' ∈ k' :: map fst fs)); [done|set_solver].
    + rewrite IH.
      destruct (decide (k ∈ map fst fs)), (decide (k ∈ k' :: map fst fs));
        first [done | set_solver].
Qed.

Lemma set_field_nodup fs k v : NoDup (map fst fs) -> NoDup (map fst (set_field fs k v)).
Proof.
  intros Hnd. rewrite set_field_keys. case_decide; [done|].
  apply NoDup_app; repeat split; [done| |apply NoDup_singleton]. set_solver.
Qed.

Lemma set_field_length_present fs k v :
  k ∈ map fst fs -> length (set_field fs k v) = length fs.
Proof.
  intros Hk. rewrite <- (length_map fst (set_field fs k v)), <- (length_map fst fs).
  rewrite set_field_keys. by rewrite decide_True.
Qed.

(** The decimal printing of numbers (template literals) is injective. *)
Lemma z_to_string_parse n :
  option_map Z.of_int (NilZero.int_of_string (z_to_string n)) = Some n.
Proof.
  unfold z_to_string. rewrite <- (DecimalZ.of_to n) at 2.
  destruct (Z.to_int n) as [[]|[]] eqn:E; try reflexivity;
    rewrite NilZero.isi; done.
Qed.

Lemma z_to_string_inj n m : z_to_string n = z_to_string m -> n = m.
Proof.
  intros H. pose proof (z_to_string_parse n) as Hn. rewrite H, z_to_string_parse in Hn.
  congruence.
Qed.

Lemma set_field_set_field_eq fs k v :
  set_field (set_field fs k v) k v = set_field fs k v.
Proof.
  induction fs as [|[k' v'] fs IH]; simpl; [by rewrite String.eqb_refl|].
  destruct (String.eqb_spec k k') as [->|Hk]; simpl; [by rewrite String.eqb_refl|].
  rewrite (proj2 (String.eqb_neq k k') Hk). by rewrite IH.
Qed.

Lemma js_to_number_primitive v : js_to_number (js_to_primitive v) = js_to_number v.
Proof. by destruct v. Qed.

(** [L > c] for a number [L] compares with ToNumber of [c]. *)
Lemma js_gt_num_l (L : Z) c :
  js_gt (JNum L) c = true <-> exists m, js_to_number c = Some m /\ (m < L)%Z.
Proof.
  rewrite <- js_to_number_primitive. unfold js_gt. cbn [js_to_primitive].
  destruct (js_to_primitive c); cbn [js_to_number];
    try (destruct (js_string_to_number _));
    split; try (intros H; discriminate H); try (intros (? & H & _); discriminate H);
    try (intros H; eexists; split; [reflexivity|]; by apply Z.ltb_lt);
    intros (? & [= <-] & ?); by apply Z.ltb_lt.
Qed.

Lemma js_get_length_arr xs : js_get (JArr xs) "length" = Normal (JNum (Z.of_nat (length xs))).
Proof. reflexivity. Qed.

Lemma js_get_length_str s : js_get (JStr s) "length" = Normal (JNum (Z.of_nat (String.length s))).
Proof. reflexivity. Qed.

Lemma js_gt_num a b : js_gt (JNum a) (JNum b) = (b <? a)%Z.
Proof. reflexivity. Qed.

#[export] Hint Rewrite js_get_length_arr js_get_length_str js_gt_num : js_simpl.
#[export] Hint Resolve set_field_nodup z_to_string_inj : semantix.
