(* ===== verification/JsString.v ===== *)
(** * The string operations of [background.js]

    Byte-string models of the [String.prototype] methods and global
    functions the worker calls: [startsWith], [charAt(0)], the regex test
    [/^_[0-9]/], [split(':')[0]], the global markup replacements
    [/{it}|{\/it}/g] and [/{wi}|{\/wi}/g], [toLowerCase],
    [split(/\s+/).filter(w => w.length > 0)], [encodeURIComponent] and the
    extra escaping [.replace(/[!'()*]/g, ...)] of the sentence cache key.
    The replacement scans with fuel; [strip_tokens] supplies enough of it
    and [strip_tokens_fuel] shows that more changes nothing. *)

From S2P Require Import Prelude JsValue.

Definition ch (n : nat) : ascii := ascii_of_nat n.

(** ** Prefix tests *)

(** [s.startsWith(p)] *)
Definition starts_with (s p : string) : bool := String.prefix p s.

(** [s.charAt(0)] *)
Definition char_at0 (s : string) : string :=
  match s with "" => "" | String c _ => String c "" end.

Definition is_digit (c : ascii) : bool :=
  let n := nat_of_ascii c in (48 <=? n)%nat && (n <=? 57)%nat.

(** [s.match(/^_[0-9]/)] is non-null *)
Definition matches_underscore_digit (s : string) : bool :=
  match s with
  | String u (String d _) => Ascii.eqb u "_"%char && is_digit d
  | _ => false
  end.

(** ** [s.split(sep)[0]]: the text before the first separator *)

Fixpoint split_first (sep : ascii) (s : string) : string :=
  match s with
  | "" => ""
  | String c s' => if Ascii.eqb c sep then "" else String c (split_first sep s')
  end.

(** [s.substring(n)] *)
Fixpoint string_drop (n : nat) (s : string) : string :=
  match n, s with
  | O, _ => s
  | S n', "" => ""
  | S n', String _ s' => string_drop n' s'
  end.

(** ** Global replacement of literal tokens by the empty string

    [s.replace(/t1|t2/g, '')] scans left to right; at each position the
    alternatives are tried in order, a match is deleted and the scan resumes
    after it, otherwise the character is kept. *)

Fixpoint first_token (toks : list string) (s : string) : option string :=
  match toks with
  | [] => None
  | t :: toks' => if String.prefix t s then Some t else first_token toks' s
  end.

Fixpoint strip_tokens_fuel (fuel : nat) (toks : list string) (s : string) : string :=
  match fuel with
  | O => s
  | S fuel' =>
      match s with
      | "" => ""
      | String c s' =>
          match first_token toks s with
          | Some t => strip_tokens_fuel fuel' toks (string_drop (String.length t) s)
          | None => String c (strip_tokens_fuel fuel' toks s')
          end
      end
  end.

Definition strip_tokens (toks : list string) (s : string) : string :=
  strip_tokens_fuel (String.length s) toks s.

(** [/{it}|{\/it}/g] and [/{wi}|{\/wi}/g] *)
Definition it_tokens : list string := ["{it}"; "{/it}"].
Definition wi_tokens : list string := ["{wi}"; "{/wi}"].

(** ** [toLowerCase] on ASCII *)

Definition ascii_lower (c : ascii) : ascii :=
  let n := nat_of_ascii c in
  if (65 <=? n)%nat && (n <=? 90)%nat then ch (n + 32) else c.

Fixpoint to_lower (s : string) : string :=
  match s with "" => "" | String c s' => String (ascii_lower c) (to_lower s') end.

(** ** [s.split(/\s+/).filter(w => w.length > 0)] *)

(** The ASCII members of the class [\s]: tab, line feed, vertical tab, form
    feed, carriage return and space. *)
Definition is_ws (c : ascii) : bool :=
  let n := nat_of_ascii c in (n =? 32)%nat || ((9 <=? n)%nat && (n <=? 13)%nat).

(** [split(/\s+/)]: [cur] is the piece being read, [in_ws] whether the scan
    is inside a run of whitespace (a run separates once). *)
Fixpoint split_ws_go (s cur : string) (in_ws : bool) : list string :=
  match s with
  | "" => [cur]
  | String c s' =>
      if is_ws c then (if in_ws then split_ws_go s' cur true else cur :: split_ws_go s' "" true)
      else split_ws_go s' (cur +:+ String c "") false
  end.

Definition split_ws (s : string) : list string := split_ws_go s "" false.

Definition words (s : string) : list string :=
  List.filter (fun w => negb (String.eqb w "")) (split_ws s).

(** ** [encodeURIComponent] and the sentence-key escaping *)

Definition hex_upper (n : nat) : ascii :=
  if (n <? 10)%nat then ch (48 + n) else ch (55 + n).

Definition hex_lower (n : nat) : ascii :=
  if (n <? 10)%nat then ch (48 + n) else ch (87 + n).

(** The characters [encodeURIComponent] leaves alone: letters, digits and
    [- _ . ! ~ * ' ( )]. *)
Definition uri_unreserved (c : ascii) : bool :=
  let n := nat_of_ascii c in
  ((65 <=? n)%nat && (n <=? 90)%nat) || ((97 <=? n)%nat && (n <=? 122)%nat) || is_digit c
  || existsb (Ascii.eqb c) ["-"; "_"; "."; "!"; "~"; "*"; "'"; "("; ")"]%char.

Definition percent_upper (c : ascii) : string :=
  let n := nat_of_ascii c in
  String "%"%char (String (hex_upper (n / 16)) (String (hex_upper (n mod 16)) "")).

Fixpoint encodeURIComponent (s : string) : string :=
  match s with
  | "" => ""
  | String c s' =>
      (if uri_unreserved c then String c "" else percent_upper c) +:+ encodeURIComponent s'
  end.

(** [/[!'()*]/] *)
Definition sub_delim (c : ascii) : bool := existsb (Ascii.eqb c) ["!"; "'"; "("; ")"; "*"]%char.

(** [c => '%' + c.charCodeAt(0).toString(16)]: lower-case hex, and every
    such character is at least 0x10, so two digits. *)
Definition percent_lower (c : ascii) : string :=
  let n := nat_of_ascii c in
  String "%"%char (String (hex_lower (n / 16)) (String (hex_lower (n mod 16)) "")).

Fixpoint replace_sub_delims (s : string) : string :=
  match s with
  | "" => ""
  | String c s' => (if sub_delim c then percent_lower c else String c "") +:+ replace_sub_delims s'
  end.

(** Lines 195-197. *)
Definition encode_sentence (s : string) : string := replace_sub_delims (encodeURIComponent s).

(** Every character of [s] satisfies [p]. *)
Fixpoint str_forallb (p : ascii -> bool) (s : string) : bool :=
  match s with "" => true | String c s' => p c && str_forallb p s' end.

(** ** Percent-decoding, the inverse of [encode_sentence] *)

Definition hex_val (c : ascii) : option nat :=
  let n := nat_of_ascii c in
  if (48 <=? n)%nat && (n <=? 57)%nat then Some (n - 48)%nat
  else if (65 <=? n)%nat && (n <=? 70)%nat then Some (n - 55)%nat
  else if (97 <=? n)%nat && (n <=? 102)%nat then Some (n - 87)%nat
  else None.

Fixpoint percent_decode (s : string) : option string :=
  match s with
  | "" => Some ""
  | String c s' =>
      if Ascii.eqb c "%"%char then
        match s' with
        | String h1 (String h2 s'') =>
            match hex_val h1, hex_val h2, percent_decode s'' with
            | Some v1, Some v2, Some r => Some (String (ch (16 * v1 + v2)) r)
            | _, _, _ => None
            end
        | _ => None
        end
      else option_map (String c) (percent_decode s')
  end.

(** ** Lemmas *)

Lemma replace_sub_delims_app a b :
  replace_sub_delims (a +:+ b) = replace_sub_delims a +:+ replace_sub_delims b.
Proof.
  induction a as [|c a IH]; [done|].
  rewrite string_app_cons. simpl. by rewrite IH, string_app_assoc.
Qed.

(** The encoding of one character, after both escaping passes. *)
Definition encode_char (c : ascii) : string :=
  replace_sub_delims (if uri_unreserved c then String c "" else percent_upper c).

Lemma encode_sentence_cons c s :
  encode_sentence (String c s) = encode_char c +:+ encode_sentence s.
Proof. unfold encode_sentence, encode_char. simpl. by rewrite replace_sub_delims_app. Qed.

(** [e] is the encoding of [c] that [percent_decode] reads back. *)
Definition decodes_to (e : string) (c : ascii) : bool :=
  match e with
  | String c' "" => Ascii.eqb c' c && negb (Ascii.eqb c "%"%char)
  | String p (String h1 (String h2 "")) =>
      Ascii.eqb p "%"%char &&
      match hex_val h1, hex_val h2 with
      | Some v1, Some v2 => Ascii.eqb (ch (16 * v1 + v2)) c
      | _, _ => false
      end
  | _ => false
  end.

Lemma decodes_to_spec e c rest :
  decodes_to e c = true -> percent_decode (e +:+ rest) = option_map (String c) (percent_decode rest).
Proof.
  destruct e as [|c1 [|c2 [|c3 [|c4 e]]]]; rewrite ?string_app_cons, ?string_app_empty;
    simpl; try discriminate.
  - intros [Hc Hp]%andb_prop. apply Ascii.eqb_eq in Hc as ->.
    apply negb_true_iff in Hp. by rewrite Hp.
  - intros [Hp Hh]%andb_prop. apply Ascii.eqb_eq in Hp as ->. simpl.
    destruct (hex_val c2), (hex_val c3); try discriminate.
    apply Ascii.eqb_eq in Hh as <-. by destruct (percent_decode rest).
Qed.

Lemma all_chars_decode :
  forallb (fun n => decodes_to (encode_char (ch n)) (ch n)) (seq 0 256) = true.
Proof. vm_compute. reflexivity. Qed.

Lemma percent_decode_encode_char c rest :
  percent_decode (encode_char c +:+ rest) = option_map (String c) (percent_decode rest).
Proof.
  apply decodes_to_spec. rewrite <- (ascii_nat_embedding c). fold (ch (nat_of_ascii c)).
  pose proof all_chars_decode as H. rewrite forallb_forall in H. apply H.
  apply in_seq. pose proof (nat_ascii_bounded c). lia.
Qed.

(** Reading the sentence key back: percent-decoding undoes [encode_sentence]. *)
Lemma percent_decode_encode_sentence s : percent_decode (encode_sentence s) = Some s.
Proof.
  induction s as [|c s IH]; [done|].
  by rewrite encode_sentence_cons, percent_decode_encode_char, IH.
Qed.

Lemma encode_sentence_inj s1 s2 : encode_sentence s1 = encode_sentence s2 -> s1 = s2.
Proof.
  intros H. apply (f_equal percent_decode) in H.
  rewrite !percent_decode_encode_sentence in H. congruence.
Qed.

Lemma str_forallb_app p a b : str_forallb p (a +:+ b) = str_forallb p a && str_forallb p b.
Proof.
  induction a as [|c a IH]; [done|]. rewrite string_app_cons. simpl.
  by rewrite IH, andb_assoc.
Qed.

(** The characters a sentence key can contain: letters, digits, [- _ . ~]
    and [%]. *)
Definition key_safe (c : ascii) : bool :=
  let n := nat_of_ascii c in
  ((65 <=? n)%nat && (n <=? 90)%nat) || ((97 <=? n)%nat && (n <=? 122)%nat) || is_digit c
  || existsb (Ascii.eqb c) ["-"; "_"; "."; "~"; "%"]%char.

Lemma all_chars_key_safe :
  forallb (fun n => str_forallb key_safe (encode_char (ch n))) (seq 0 256) = true.
Proof. vm_compute. reflexivity. Qed.

Lemma encode_char_key_safe c : str_forallb key_safe (encode_char c) = true.
Proof.
  rewrite <- (ascii_nat_embedding c). fold (ch (nat_of_ascii c)).
  pose proof all_chars_key_safe as H. rewrite forallb_forall in H. apply H.
  apply in_seq. pose proof (nat_ascii_bounded c). lia.
Qed.

(** C31. The sentence encoding of lines 195-197 is safe inside a key: it
    contains only letters, digits, [- _ . ~] and [%], for every input
    string (every byte, the five sub-delimiters included). *)
Lemma encode_sentence_key_safe s : str_forallb key_safe (encode_sentence s) = true.
Proof.
  induction s as [|c s IH]; [done|].
  by rewrite encode_sentence_cons, str_forallb_app, encode_char_key_safe, IH.
Qed.

(** *** The replacement scan *)

Lemma first_token_some toks s t :
  first_token toks s = Some t -> t ∈ toks /\ String.prefix t s = true.
Proof.
  induction toks as [|t' toks IH]; simpl; [discriminate|].
  destruct (String.prefix t' s) eqn:E.
  - intros [= <-]. split; [set_solver|done].
  - intros H. destruct (IH H). split; [set_solver|done].
Qed.

Lemma string_drop_length n s : String.length (string_drop n s) = String.length s - n.
Proof.
  revert s; induction n as [|n IH]; intros [|c s]; simpl; rewrite ?IH; lia.
Qed.

Section Strip.
(** The tokens of a replacement regex are never empty. *)
Context (toks : list string) (Htoks : Forall (fun t => t <> "") toks).

Lemma strip_tokens_fuel_stable n m s :
  String.length s <= n -> String.length s <= m ->
  strip_tokens_fuel n toks s = strip_tokens_fuel m toks s.
Proof.
  revert m s; induction n as [|n IH]; intros m s Hn Hm.
  - destruct s; simpl in Hn; [|lia]. by destruct m.
  - destruct m as [|m]; [destruct s; simpl in Hm; [done|lia]|].
    destruct s as [|c s']; simpl; [done|]. simpl in Hn, Hm.
    destruct (first_token toks (String c s')) as [t|] eqn:Ht.
    + apply first_token_some in Ht as [Hin _].
      assert (t <> "") by (rewrite Forall_forall in Htoks; by apply Htoks).
      apply IH; rewrite string_drop_length; destruct t; simpl in *; [done|lia|done|lia].
    + f_equal. apply IH; lia.
Qed.

(** Any fuel at least the length of the input gives the result of
    [strip_tokens]: the scan terminates within [length s] steps. *)
(** The markup stripping terminates within its fuel: the fuel
    [strip_tokens] gives, the length of the string, is enough, since every
    step consumes at least one character; any larger fuel computes the
    same string. *)
Lemma strip_tokens_fuel_enough n s :
  String.length s <= n -> strip_tokens_fuel n toks s = strip_tokens toks s.
Proof. intros H. by apply strip_tokens_fuel_stable. Qed.

Lemma strip_tokens_fuel_length n s :
  String.length (strip_tokens_fuel n toks s) <= String.length s.
Proof.
  revert s; induction n as [|n IH]; intros s; simpl; [lia|].
  destruct s as [|c s']; simpl; [lia|].
  destruct (first_token toks (String c s')) as [t|] eqn:Ht; simpl.
  - etransitivity; [apply IH|]. rewrite string_drop_length. simpl. lia.
  - specialize (IH s'). lia.
Qed.
End Strip.

(** A text with no character that starts a token is left unchanged. *)
Lemma strip_tokens_fuel_no_start (toks : list string) (a : ascii) n s :
  Forall (fun t => exists r, t = String a r) toks ->
  str_forallb (fun c => negb (Ascii.eqb c a)) s = true ->
  strip_tokens_fuel n toks s = s.
Proof.
  intros Htoks. revert s; induction n as [|n IH]; intros s Hs; simpl; [done|].
  destruct s as [|c s']; [done|]. simpl in Hs. apply andb_prop in Hs as [Hc Hs'].
  destruct (first_token toks (String c s')) as [t|] eqn:Ht.
  - apply first_token_some in Ht as [Hin Hp].
    rewrite Forall_forall in Htoks. destruct (Htoks t Hin) as [r ->].
    simpl in Hp. destruct (ascii_dec a c) as [->|]; [|discriminate].
    by rewrite Ascii.eqb_refl in Hc.
  - by rewrite IH.
Qed.

(** *** [split(sep)[0]] *)

(** The headword is the text before the first separator: it contains no
    separator, and what follows it in [s] is empty or starts with one. *)
Lemma split_first_spec sep s :
  str_forallb (fun c => negb (Ascii.eqb c sep)) (split_first sep s) = true /\
  exists rest, s = split_first sep s +:+ rest /\ (rest = "" \/ exists r, rest = String sep r).
Proof.
  induction s as [|c s IH]; simpl.
  - split; [done|]. exists ""; auto.
  - destruct (Ascii.eqb_spec c sep) as [->|Hne]; simpl.
    + split; [done|]. exists (String sep s). eauto.
    + destruct IH as [Hf (rest & Hs & Hr)]. split.
      * rewrite Hf, andb_true_r. apply negb_true_iff, Ascii.eqb_neq. done.
      * exists rest. rewrite string_app_cons. split; [congruence|done].
Qed.

(** *** [split(/\s+/).filter(w => w.length > 0)] *)

Lemma split_ws_go_no_ws s cur b :
  str_forallb (fun c => negb (is_ws c)) cur = true ->
  Forall (fun w => str_forallb (fun c => negb (is_ws c)) w = true) (split_ws_go s cur b).
Proof.
  revert cur b; induction s as [|c s IH]; intros cur b Hcur; simpl; [by constructor|].
  destruct (is_ws c) eqn:Hc; [destruct b|].
  - by apply IH.
  - constructor; [done|]. by apply IH.
  - apply IH. rewrite str_forallb_app, Hcur. simpl. by rewrite Hc.
Qed.

(** Every word of [s] is non-empty and free of whitespace. *)
Lemma words_spec s :
  Forall (fun w => w <> "" /\ str_forallb (fun c => negb (is_ws c)) w = true) (words s).
Proof.
  unfold words. pose proof (split_ws_go_no_ws s "" false eq_refl) as H.
  unfold split_ws. induction H as [|w ws Hw _ IH]; simpl; [constructor|].
  destruct (String.eqb_spec w "") as [->|Hne]; simpl; [exact IH|by constructor].
Qed.

Lemma split_ws_go_no_ws_input s cur :
  str_forallb (fun c => negb (is_ws c)) s = true -> split_ws_go s cur false = [cur +:+ s].
Proof.
  revert cur; induction s as [|c s IH]; intros cur Hs; simpl.
  - by rewrite string_app_nil_r.
  - simpl in Hs. apply andb_prop in Hs as [Hc Hs]. apply negb_true_iff in Hc. rewrite Hc.
    by rewrite IH, string_app_assoc.
Qed.

(** A non-empty text without whitespace is a single word. *)
Lemma words_no_ws s :
  s <> "" -> str_forallb (fun c => negb (is_ws c)) s = true -> words s = [s].
Proof.
  intros Hne Hs. unfold words, split_ws. rewrite split_ws_go_no_ws_input by done.
  simpl. destruct (String.eqb_spec ("" +:+ s) "") as [E|]; [|done]. by rewrite string_app_empty in E.
Qed.

