(* ===== verification/Entry.v ===== *)
(** * The canonical entry

    The entry shape both adapters build and the Cambridge proxy returns
    (spec §3), as typed records, and its encoding as the JavaScript object
    the code builds: property names and their order are those of the object
    literals at lines 19, 28, 31-33, 35, 44-52, 54 and 55-62 of
    [background.js].  A translation property is absent (Merriam-Webster
    objects have none), [null], or a string.

    [JsEncode] is the interface between the typed layer and [jsval]: an
    encoding, a decoding, and the law that decoding an encoding gives the
    value back.  The refinement theorems of [Preferences], [Gemini] and
    [MerriamWebster] are stated through it. *)

From S2P Require Import Prelude JsValue.

Class JsEncode (A : Type) := {
  to_js : A -> jsval;
  of_js : jsval -> option A;
  of_js_to_js : forall x, of_js (to_js x) = Some x
}.

(** A translation property. *)
Inductive tfield := TAbsent | TNull | TStr (s : string).

Record example := mkExample { ex_text : string; ex_translation : tfield }.

Record sense := mkSense {
  sn_pos : string;
  sn_text : string;
  sn_translation : tfield;
  sn_examples : list example
}.

Record pronunciation := mkPron { pr_lang : string; pr_pron : string; pr_url : string }.

Record entry := mkEntry {
  en_word : string;
  en_translation : tfield;
  en_pos : list string;
  en_verbs : list string;
  en_prons : list pronunciation;
  en_senses : list sense
}.

(** ** Optional strings and the [||] defaults of the adapters *)

(** The properties of a payload object: an absent option is an absent
    property. *)
Definition opt_prop (k : string) (o : option string) : list (string * jsval) :=
  match o with Some s => [(k, JStr s)] | None => [] end.

(** The value a property of an encoded payload reads as. *)
Definition opt_val (o : option string) : jsval := default JUndefined (option_map JStr o).

(** [o || dflt] on an optional string. *)
Definition or_default (o : option string) (dflt : string) : string :=
  match o with Some s => if String.eqb s "" then dflt else s | None => dflt end.

(** [o || null] on an optional string. *)
Definition or_null (o : option string) : tfield :=
  match o with Some s => if String.eqb s "" then TNull else TStr s | None => TNull end.

(** ** Encoding *)

Definition tfield_props (k : string) (t : tfield) : list (string * jsval) :=
  match t with TAbsent => [] | TNull => [(k, JNull)] | TStr s => [(k, JStr s)] end.

Definition tfield_of (o : option jsval) : option tfield :=
  match o with
  | None => Some TAbsent
  | Some JNull => Some TNull
  | Some (JStr s) => Some (TStr s)
  | Some _ => None
  end.

Definition get_str (fs : list (string * jsval)) (k : string) : option string :=
  match assoc_lookup k fs with Some (JStr s) => Some s | _ => None end.

Definition get_arr (fs : list (string * jsval)) (k : string) : option (list jsval) :=
  match assoc_lookup k fs with Some (JArr xs) => Some xs | _ => None end.

Fixpoint dec_list {A} (f : jsval -> option A) (xs : list jsval) : option (list A) :=
  match xs with
  | [] => Some []
  | x :: xs' => a ← f x; as_ ← dec_list f xs'; Some (a :: as_)
  end.

#[export] Instance string_js : JsEncode string.
Proof.
  refine {| to_js := JStr; of_js := fun v => match v with JStr s => Some s | _ => None end |}.
  done.
Defined.

#[export] Instance list_js {A} `{JsEncode A} : JsEncode (list A).
Proof.
  refine {| to_js := fun xs => JArr (map to_js xs);
            of_js := fun v => match v with JArr xs => dec_list of_js xs | _ => None end |}.
  intros xs. induction xs as [|x xs IH]; simpl; [done|].
  simpl in IH. by rewrite of_js_to_js, IH.
Defined.

Definition example_fields (e : example) : list (string * jsval) :=
  ("text", JStr (ex_text e)) :: tfield_props "translation" (ex_translation e).

#[export] Instance example_js : JsEncode example.
Proof.
  refine {| to_js := fun e => JObj (example_fields e);
            of_js := fun v => match v with
                              | JObj fs => t ← get_str fs "text";
                                           tr ← tfield_of (assoc_lookup "translation" fs);
                                           Some (mkExample t tr)
                              | _ => None end |}.
  intros [t tr]. by destruct tr.
Defined.

Definition sense_fields (s : sense) : list (string * jsval) :=
  [("pos", JStr (sn_pos s)); ("text", JStr (sn_text s))] ++
  tfield_props "translation" (sn_translation s) ++
  [("example", to_js (sn_examples s))].

#[export] Instance sense_js : JsEncode sense.
Proof.
  refine {| to_js := fun s => JObj (sense_fields s);
            of_js := fun v => match v with
                              | JObj fs => p ← get_str fs "pos"; t ← get_str fs "text";
                                           tr ← tfield_of (assoc_lookup "translation" fs);
                                           exs ← assoc_lookup "example" fs ≫= of_js;
                                           Some (mkSense p t tr exs)
                              | _ => None end |}.
  intros [p t tr exs]. pose proof (of_js_to_js exs) as H.
  destruct tr; simpl in *; by rewrite H.
Defined.

Definition pron_fields (p : pronunciation) : list (string * jsval) :=
  [("lang", JStr (pr_lang p)); ("pron", JStr (pr_pron p)); ("url", JStr (pr_url p))].

#[export] Instance pron_js : JsEncode pronunciation.
Proof.
  refine {| to_js := fun p => JObj (pron_fields p);
            of_js := fun v => match v with
                              | JObj fs => l ← get_str fs "lang"; p ← get_str fs "pron";
                                           u ← get_str fs "url"; Some (mkPron l p u)
                              | _ => None end |}.
  by intros [].
Defined.

Definition entry_fields (e : entry) : list (string * jsval) :=
  ("word", JStr (en_word e)) :: tfield_props "translation" (en_translation e) ++
  [("pos", to_js (en_pos e)); ("verbs", to_js (en_verbs e));
   ("pronunciation", to_js (en_prons e)); ("definition", to_js (en_senses e))].

#[export] Instance entry_js : JsEncode entry.
Proof.
  refine {| to_js := fun e => JObj (entry_fields e);
            of_js := fun v => match v with
                              | JObj fs => w ← get_str fs "word";
                                           tr ← tfield_of (assoc_lookup "translation" fs);
                                           pos ← assoc_lookup "pos" fs ≫= of_js;
                                           vs ← assoc_lookup "verbs" fs ≫= of_js;
                                           prs ← assoc_lookup "pronunciation" fs ≫= of_js;
                                           sns ← assoc_lookup "definition" fs ≫= of_js;
                                           Some (mkEntry w tr pos vs prs sns)
                              | _ => None end |}.
  intros [w tr pos vs prs sns].
  pose proof (of_js_to_js pos) as H1. pose proof (of_js_to_js vs) as H2.
  pose proof (of_js_to_js prs) as H3. pose proof (of_js_to_js sns) as H4.
  destruct tr; simpl in *; by rewrite H1, H2, H3, H4.
Defined.

(** ** The encodings as rewrite rules *)

Lemma list_to_js {A} `{JsEncode A} (xs : list A) : to_js xs = JArr (map to_js xs).
Proof. reflexivity. Qed.

Lemma example_to_js e : to_js e = JObj (example_fields e).
Proof. reflexivity. Qed.

Lemma sense_to_js s : to_js s = JObj (sense_fields s).
Proof. reflexivity. Qed.

Lemma pron_to_js p : to_js p = JObj (pron_fields p).
Proof. reflexivity. Qed.

Lemma entry_to_js e : to_js e = JObj (entry_fields e).
Proof. reflexivity. Qed.

#[export] Hint Rewrite @list_to_js example_to_js sense_to_js pron_to_js entry_to_js : js_simpl.

(** ** The [||] defaults *)

Lemma js_or_default o dflt : js_or (opt_val o) (JStr dflt) = JStr (or_default o dflt).
Proof. destruct o as [s|]; [|done]. unfold js_or; simpl. by destruct (String.eqb s ""). Qed.

Lemma tfield_props_or_null k o : tfield_props k (or_null o) = [(k, js_or (opt_val o) JNull)].
Proof. destruct o as [s|]; [|done]. unfold js_or; simpl. by destruct (String.eqb s ""). Qed.

Lemma or_default_empty o : or_default o "" = default "" o.
Proof. destruct o as [s|]; [|done]. simpl. by destruct (String.eqb_spec s "") as [->|]. Qed.

