(* ===== verification/Preferences.v ===== *)
(** * Display preferences: [applyDisplayPreferences] (lines 67-86)

    [Display.applyDisplayPreferences] is the function of the source over
    [jsval], statement by statement: the scope and count defaults, the array
    spread of [data.definition], the restriction to the first definition,
    the per-definition copy and [slice] of the examples, and the final
    object spread.  [Display.project] is the projection of the spec (§4.2)
    on typed entries; [applyDisplayPreferences_refines] shows that the code
    computes it on every encoded entry and every non-negative count.
    The remaining theorems hold of the code on arbitrary values:
    idempotence, the number of definitions kept, and the example bound. *)

From S2P Require Import Prelude JsValue Entry.

Module Display.

(** ** The code *)

(** [Array.prototype.slice]'s end argument: negative counts from the end. *)
Definition slice_end (len : nat) (n : Z) : nat :=
  if (n <? 0)%Z then Z.to_nat (Z.max 0 (Z.of_nat len + n)) else Z.to_nat (Z.min n (Z.of_nat len)).

(** [v.slice(0, count)]; ToIntegerOrInfinity maps NaN to 0. *)
Definition js_slice0 (v count : jsval) : completion jsval :=
  let n := default 0%Z (js_to_number count) in
  match v with
  | JArr xs => Normal (JArr (take (slice_end (length xs) n) xs))
  | JStr s => Normal (JStr (String.substring 0 (slice_end (String.length s) n) s))
  | JUndefined => Throw (read_error "undefined" "slice")
  | JNull => Throw (read_error "null" "slice")
  | _ => Throw (TypeError "newDef.example.slice is not a function")
  end.

(** [settings.definitionScope || 'relevant'] *)
Definition scope_of (settings : jsval) : completion jsval :=
  ds <- js_get settings "definitionScope" ;; Normal (js_or ds (JStr "relevant")).

(** [settings.exampleCount !== undefined ? settings.exampleCount : 1] *)
Definition count_of (settings : jsval) : completion jsval :=
  ec <- js_get settings "exampleCount" ;;
  Normal (if js_is_undefined ec then JNum 1 else ec).

(** Lines 77-83, the callback of [definitionsToUse.map]. *)
Definition trim_def (count def : jsval) : completion jsval :=
  let newDef := own_props def in
  let ex := default JUndefined (assoc_lookup "example" newDef) in
  if js_truthy ex then
    len <- js_get ex "length" ;;
    if js_gt len count then
      sl <- js_slice0 ex count ;;
      Normal (JObj (set_field newDef "example" sl))
    else Normal (JObj newDef)
  else Normal (JObj newDef).

(** Lines 73-75: [[definitionsToUse[0]]] when the scope is ['relevant'] and
    there is more than one definition. *)
Definition restrict (scope : jsval) (defs : list jsval) : list jsval :=
  if js_eq_str scope "relevant" && (1 <? length defs)%nat
  then [default JUndefined (head defs)] else defs.

(** Line 71: [[...data.definition]] *)
Definition spread_definitions (data : jsval) : completion (list jsval) :=
  d <- js_get data "definition" ;; js_iterate d "data.definition".

Definition applyDisplayPreferences (data settings : jsval) : completion jsval :=
  scope <- scope_of settings ;;
  count <- count_of settings ;;
  defs <- spread_definitions data ;;
  finals <- cmap_list (trim_def count) (restrict scope defs) ;;
  Normal (spread_with data "definition" (JArr finals)).

(** ** The specification (spec §4.2) *)

Inductive scope := Relevant | All.

Record prefs := mkPrefs { pf_scope : scope; pf_count : nat }.

Definition trim_sense (k : nat) (s : sense) : sense :=
  mkSense (sn_pos s) (sn_text s) (sn_translation s) (take k (sn_examples s)).

Definition project (p : prefs) (e : entry) : entry :=
  let kept := match pf_scope p with Relevant => take 1 (en_senses e) | All => en_senses e end in
  mkEntry (en_word e) (en_translation e) (en_pos e) (en_verbs e) (en_prons e)
    (map (trim_sense (pf_count p)) kept).

(** The preferences a settings object denotes, when its effective count is
    a non-negative number: a scope other than ['relevant'] keeps every
    definition, as the code's test [scope === 'relevant'] does. *)
Definition prefs_of (settings : jsval) : option prefs :=
  match scope_of settings, count_of settings with
  | Normal sc, Normal (JNum n) =>
      if (0 <=? n)%Z
      then Some (mkPrefs (if js_eq_str sc "relevant" then Relevant else All) (Z.to_nat n))
      else None
  | _, _ => None
  end.

(** The effective example count is a non-negative number, or not a number
    (NaN counts never trigger the slice). *)
Definition count_ok (settings : jsval) : bool :=
  match count_of settings with
  | Normal c => match js_to_number c with Some n => (0 <=? n)%Z | None => true end
  | Throw _ => true
  end.

(** A definition object that [trim_def] leaves as it is. *)
Definition trimmed (c : jsval) (fs : list (string * jsval)) : Prop :=
  forall ex, assoc_lookup "example" fs = Some ex -> js_truthy ex = true ->
  exists l, js_get ex "length" = Normal l /\ js_gt l c = false.

(** A sample entry, as the Gemini adapter builds it for "run", and the
    stored settings of the default preferences. *)
Definition run_entry : entry :=
  mkEntry "run" TNull ["verb"; "noun"] [] [mkPron "us" "" ""]
    [mkSense "verb" "move fast" TNull [mkExample "He can run fast." TNull; mkExample "Run!" TNull];
     mkSense "noun" "a race" TNull []].

Definition default_settings : jsval :=
  JObj [("definitionScope", JStr "relevant"); ("exampleCount", JNum 1)].

(** ** Refinement: the code computes the projection on encoded entries *)

Lemma sense_fields_example s :
  assoc_lookup "example" (sense_fields s) = Some (to_js (sn_examples s)).
Proof. by destruct s as [? ? [] ?]. Qed.

Lemma sense_fields_set_example s k :
  set_field (sense_fields s) "example" (to_js (take k (sn_examples s))) = sense_fields (trim_sense k s).
Proof. by destruct s as [? ? [] ?]. Qed.

Lemma slice_end_nonneg len n : (0 <= n)%Z -> slice_end len n = Nat.min (Z.to_nat n) len.
Proof. intros Hn. unfold slice_end. destruct (Z.ltb_spec n 0); lia. Qed.

Lemma trim_def_sense (n : Z) s :
  (0 <= n)%Z -> trim_def (JNum n) (to_js s) = Normal (to_js (trim_sense (Z.to_nat n) s)).
Proof.
  intros Hn. unfold trim_def. change (to_js s) with (JObj (sense_fields s)). cbn [own_props].
  rewrite sense_fields_example. change (to_js (sn_examples s)) with (JArr (map to_js (sn_examples s))).
  cbn [default from_option id js_truthy]. rewrite js_get_length_arr, cbind_normal, js_gt_num, length_map.
  destruct (Z.ltb_spec n (Z.of_nat (length (sn_examples s)))) as [Hlt|Hge].
  - cbn [cbind js_slice0 default from_option id js_to_number]. rewrite length_map, slice_end_nonneg by done.
    rewrite firstn_map. replace (Nat.min (Z.to_nat n) (length (sn_examples s))) with (Z.to_nat n) by lia.
    change (JArr (map to_js (take (Z.to_nat n) (sn_examples s)))) with (to_js (take (Z.to_nat n) (sn_examples s))).
    by rewrite sense_fields_set_example.
  - f_equal. unfold trim_sense. rewrite take_ge by lia. by destruct s.
Qed.

Lemma entry_fields_pos e :
  assoc_lookup "pos" (entry_fields e) = Some (to_js (en_pos e)).
Proof. by destruct e as [? [] ? ? ? ?]. Qed.

Lemma entry_fields_definition e :
  assoc_lookup "definition" (entry_fields e) = Some (to_js (en_senses e)).
Proof. by destruct e as [? [] ? ? ? ?]. Qed.

Lemma entry_fields_set_definition e (senses : list sense) :
  set_field (entry_fields e) "definition" (to_js senses) =
  entry_fields (mkEntry (en_word e) (en_translation e) (en_pos e) (en_verbs e) (en_prons e) senses).
Proof. by destruct e as [? [] ? ? ? ?]. Qed.

Lemma restrict_encoded sc (senses : list sense) :
  restrict sc (map to_js senses) =
  map to_js (if js_eq_str sc "relevant" then take 1 senses else senses).
Proof.
  unfold restrict. rewrite length_map. destruct (js_eq_str sc "relevant"); [|done].
  by destruct senses as [|s [|s' ss]].
Qed.

(** The refinement, shared by the theorems that compose it. *)
Lemma applyDisplayPreferences_project settings p e :
  prefs_of settings = Some p ->
  applyDisplayPreferences (to_js e) settings = Normal (to_js (project p e)).
Proof.
  unfold prefs_of. destruct (scope_of settings) as [sc|] eqn:Hsc; [|discriminate].
  destruct (count_of settings) as [[| | |n| | |]|] eqn:Hc; try discriminate.
  destruct (Z.leb_spec 0 n) as [Hn|]; [|discriminate]. intros [= <-].
  unfold applyDisplayPreferences, spread_definitions. rewrite Hsc, Hc. cbn [cbind].
  change (to_js e) with (JObj (entry_fields e)).
  rewrite js_get_normal_obj, entry_fields_definition. cbn [default from_option id cbind].
  change (to_js (en_senses e)) with (JArr (map to_js (en_senses e))). cbn [js_iterate cbind].
  rewrite restrict_encoded, (cmap_list_map_normal _ _ (fun s => to_js (trim_sense (Z.to_nat n) s)))
    by (intros ? _; by apply trim_def_sense).
  rewrite cbind_normal. unfold spread_with. cbn [own_props].
  rewrite <- (map_map (trim_sense (Z.to_nat n)) to_js).
  change (JArr (map to_js ?l)) with (to_js l). rewrite entry_fields_set_definition.
  by destruct (js_eq_str sc "relevant").
Qed.

(** C1. On every typed entry, and every settings object whose effective
    example count is a non-negative number, [applyDisplayPreferences]
    computes the encoding of the spec's projection [project]. *)
Theorem applyDisplayPreferences_refines settings p e :
  prefs_of settings = Some p ->
  applyDisplayPreferences (to_js e) settings = Normal (to_js (project p e)).
Proof. exact (applyDisplayPreferences_project settings p e). Qed.

(** ** The code on arbitrary values *)

(** The steps of a run of [applyDisplayPreferences] that returns. *)
Lemma applyDisplayPreferences_inv data settings d' :
  applyDisplayPreferences data settings = Normal d' ->
  exists sc c defs finals,
    scope_of settings = Normal sc /\ count_of settings = Normal c /\
    spread_definitions data = Normal defs /\
    cmap_list (trim_def c) (restrict sc defs) = Normal finals /\
    d' = spread_with data "definition" (JArr finals).
Proof.
  unfold applyDisplayPreferences. intros H. inv_cbind.
  eexists _, _, _, _. repeat split; first [eassumption | reflexivity].
Qed.

Lemma spread_definitions_spread_with v xs :
  spread_definitions (spread_with v "definition" (JArr xs)) = Normal xs.
Proof. unfold spread_definitions, spread_with. cbn [js_get]. by rewrite assoc_lookup_set_field_eq. Qed.

Lemma restrict_length sc xs :
  length (restrict sc xs) = if js_eq_str sc "relevant" then Nat.min 1 (length xs) else length xs.
Proof.
  unfold restrict. destruct (js_eq_str sc "relevant"); [|done].
  destruct (Nat.ltb_spec 1 (length xs)); cbn [andb length]; lia.
Qed.

Lemma trim_def_fixed c fs : trimmed c fs -> trim_def c (JObj fs) = Normal (JObj fs).
Proof.
  intros H. unfold trim_def. cbn [own_props].
  destruct (assoc_lookup "example" fs) as [ex|] eqn:Hex; cbn [default from_option id]; [|done].
  destruct (js_truthy ex) eqn:Ht; [|done].
  destruct (H ex Hex Ht) as (l & -> & Hl). by rewrite cbind_normal, Hl.
Qed.

Lemma substring0_length k s : String.length (String.substring 0 k s) = Nat.min k (String.length s).
Proof.
  revert s; induction k as [|k IH]; intros [|c s]; simpl; rewrite ?IH; lia.
Qed.

(** What [slice(0, count)] returns is not longer than the count. *)
Lemma js_slice0_short ex c sl L m :
  js_get ex "length" = Normal (JNum L) -> js_to_number c = Some m -> (0 <= m < L)%Z ->
  js_slice0 ex c = Normal sl ->
  js_truthy sl = true -> exists l, js_get sl "length" = Normal l /\ js_gt l c = false.
Proof.
  intros HL Hm Hrange Hsl Ht. unfold js_slice0 in Hsl. rewrite Hm in Hsl. cbn [default from_option id] in Hsl.
  assert (Hend : forall len, Z.of_nat len = L -> slice_end len m = Z.to_nat m).
  { intros len <-. rewrite slice_end_nonneg by lia. lia. }
  destruct ex as [| | | |s|xs|]; try discriminate Hsl; injection Hsl as <-; injection HL as HL.
  - rewrite js_get_length_str. eexists; split; [done|]. rewrite <- Bool.not_true_iff_false, js_gt_num_l.
    intros (m' & Hm' & Hlt). rewrite Hm in Hm'. injection Hm' as <-.
    rewrite substring0_length, (Hend _ HL) in Hlt. lia.
  - rewrite js_get_length_arr. eexists; split; [done|]. rewrite <- Bool.not_true_iff_false, js_gt_num_l.
    intros (m' & Hm' & Hlt). rewrite Hm in Hm'. injection Hm' as <-.
    rewrite length_take, (Hend _ HL) in Hlt. lia.
Qed.

Lemma trim_def_trimmed c d d' :
  (forall n, js_to_number c = Some n -> (0 <= n)%Z) ->
  trim_def c d = Normal d' -> exists fs, d' = JObj fs /\ trimmed c fs.
Proof.
  intros Hc H. unfold trim_def in H.
  destruct (js_truthy (default JUndefined (assoc_lookup "example" (own_props d)))) eqn:Ht.
  2: { injection H as <-. eexists; split; [done|]. intros ex Hex. rewrite Hex in Ht. simpl in Ht. congruence. }
  set (ex := default JUndefined (assoc_lookup "example" (own_props d))) in *.
  destruct (js_get ex "length") as [l|] eqn:Hl; [|discriminate]. rewrite cbind_normal in H.
  destruct (js_gt l c) eqn:Hgt.
  2: { injection H as <-. eexists; split; [done|]. intros ex' Hex' _.
       unfold ex in Hl, Ht. rewrite Hex' in Hl. simpl in Hl. eauto. }
  destruct (js_slice0 ex c) as [sl|] eqn:Hsl; [|discriminate]. injection H as <-.
  eexists; split; [done|]. intros ex' Hex' Ht'. rewrite assoc_lookup_set_field_eq in Hex'. injection Hex' as <-.
  assert (exists L, l = JNum L) as [L ->]
    by (destruct ex; try discriminate Hsl; injection Hl as <-; eauto).
  apply js_gt_num_l in Hgt as (m & Hm & HmL).
  eapply js_slice0_short; eauto.
Qed.

Lemma trim_def_idem c d d' :
  (forall n, js_to_number c = Some n -> (0 <= n)%Z) ->
  trim_def c d = Normal d' -> trim_def c d' = Normal d'.
Proof.
  intros Hc H. destruct (trim_def_trimmed c d d' Hc H) as (fs & -> & Hfs). by apply trim_def_fixed.
Qed.

Lemma restrict_fixed sc xs ys : length ys = length (restrict sc xs) -> restrict sc ys = ys.
Proof.
  unfold restrict. intros Hlen.
  destruct (js_eq_str sc "relevant"); cbn [andb] in *; [|done].
  destruct (Nat.ltb_spec 1 (length xs)), (Nat.ltb_spec 1 (length ys)); cbn [length] in *; try done; lia.
Qed.

(** C16. Re-projecting a projected value changes nothing: whenever
    [applyDisplayPreferences] returns, applying it again to its result with
    the same settings returns that result (for any payload, given a
    non-negative or non-numeric example count). *)
Theorem applyDisplayPreferences_idempotent data settings d' :
  count_ok settings = true ->
  applyDisplayPreferences data settings = Normal d' ->
  applyDisplayPreferences d' settings = Normal d'.
Proof.
  unfold count_ok. intros Hok H.
  destruct (applyDisplayPreferences_inv _ _ _ H) as (sc & c & defs & finals & Hs & Hc & Hd & Hf & ->).
  rewrite Hc in Hok.
  assert (Hc' : forall n, js_to_number c = Some n -> (0 <= n)%Z)
    by (intros n Hn; rewrite Hn in Hok; by apply Z.leb_le).
  unfold applyDisplayPreferences. rewrite Hs, Hc, spread_definitions_spread_with. cbn [cbind].
  rewrite restrict_fixed with (xs := defs) by (eapply cmap_list_length; eauto).
  rewrite (cmap_list_idem _ _ finals (fun x y => trim_def_idem c x y Hc')) by done.
  rewrite cbind_normal. unfold spread_with. cbn [own_props]. by rewrite set_field_set_field_eq.
Qed.

(** C17. The number of definitions kept: the first one alone under the
    ['relevant'] scope (none if there are none), all of them otherwise;
    projection never adds a definition. *)
Theorem applyDisplayPreferences_definition_count data settings d' sc defs :
  scope_of settings = Normal sc ->
  spread_definitions data = Normal defs ->
  applyDisplayPreferences data settings = Normal d' ->
  exists finals, spread_definitions d' = Normal finals /\
    length finals = (if js_eq_str sc "relevant" then Nat.min 1 (length defs) else length defs).
Proof.
  intros Hs Hd H.
  destruct (applyDisplayPreferences_inv _ _ _ H) as (sc' & c & defs' & finals & Hs' & _ & Hd' & Hf & ->).
  rewrite Hs in Hs'; injection Hs' as <-. rewrite Hd in Hd'; injection Hd' as <-.
  exists finals. rewrite spread_definitions_spread_with, <- restrict_length.
  split; [done|]. by eapply cmap_list_length.
Qed.

(** C18. With a non-negative example count [k], every kept definition whose
    [example] property is an array holds at most [k] examples. *)
Theorem applyDisplayPreferences_example_bound data settings d' (k : Z) finals f xs :
  count_of settings = Normal (JNum k) -> (0 <= k)%Z ->
  applyDisplayPreferences data settings = Normal d' ->
  spread_definitions d' = Normal finals ->
  f ∈ finals -> assoc_lookup "example" (own_props f) = Some (JArr xs) ->
  (Z.of_nat (length xs) <= k)%Z.
Proof.
  intros Hc Hk H Hfin Hin Hex.
  destruct (applyDisplayPreferences_inv _ _ _ H) as (sc & c & defs & finals' & _ & Hc' & _ & Hf & ->).
  rewrite Hc in Hc'; injection Hc' as <-.
  rewrite spread_definitions_spread_with in Hfin; injection Hfin as <-.
  destruct (cmap_list_elem _ _ _ _ Hf Hin) as (d & _ & Hd).
  destruct (trim_def_trimmed (JNum k) _ _ (fun n Hn => ltac:(cbn in Hn; injection Hn as <-; done)) Hd) as (fs & -> & Htr).
  destruct (Htr _ Hex eq_refl) as (l & Hl & Hgt). rewrite js_get_length_arr in Hl. injection Hl as <-.
  rewrite js_gt_num in Hgt. apply Z.ltb_ge in Hgt. done.
Qed.

(** C19. [applyDisplayPreferences] trims the definitions but not the
    parallel [pos] array (line 85 replaces [definition] only): under the
    ['relevant'] scope, an entry with two or more senses whose arrays are
    parallel comes out with one definition and all of its parts of speech,
    and it is this value that is cached. *)
Theorem applyDisplayPreferences_breaks_parallel settings p e :
  prefs_of settings = Some p -> pf_scope p = Relevant ->
  length (en_pos e) = length (en_senses e) -> 2 <= length (en_senses e) ->
  exists v poss defs,
    applyDisplayPreferences (to_js e) settings = Normal v /\
    js_get v "pos" = Normal (JArr poss) /\ js_get v "definition" = Normal (JArr defs) /\
    length defs = 1 /\ length poss = length (en_senses e).
Proof.
  intros Hp Hs Hpar H2. rewrite (applyDisplayPreferences_project settings p e Hp).
  eexists _, _, _. split; [reflexivity|]. change (to_js (project p e)) with (JObj (entry_fields (project p e))).
  rewrite !js_get_normal_obj, entry_fields_pos, entry_fields_definition.
  split; [reflexivity|]. split; [reflexivity|].
  unfold project. rewrite Hs. cbn [en_pos en_senses]. rewrite !length_map, length_take. lia.
Qed.

(** ** Witnesses *)

Lemma applyDisplayPreferences_refines_witness :
  applyDisplayPreferences (to_js run_entry) default_settings =
  Normal (to_js (project (mkPrefs Relevant 1) run_entry)).
Proof. apply applyDisplayPreferences_refines. reflexivity. Defined.

Lemma applyDisplayPreferences_idempotent_witness :
  applyDisplayPreferences (to_js (project (mkPrefs Relevant 1) run_entry)) default_settings =
  Normal (to_js (project (mkPrefs Relevant 1) run_entry)).
Proof.
  apply (applyDisplayPreferences_idempotent (to_js run_entry)); [reflexivity|].
  vm_compute. reflexivity.
Defined.

Lemma applyDisplayPreferences_definition_count_witness :
  exists finals,
    spread_definitions (to_js (project (mkPrefs Relevant 1) run_entry)) = Normal finals /\
    length finals =
    (if js_eq_str (JStr "relevant") "relevant"
     then Nat.min 1 (length (map to_js (en_senses run_entry)))
     else length (map to_js (en_senses run_entry))).
Proof.
  apply (applyDisplayPreferences_definition_count (to_js run_entry) default_settings _
           (JStr "relevant") (map to_js (en_senses run_entry)));
    vm_compute; reflexivity.
Defined.

Lemma applyDisplayPreferences_example_bound_witness :
  (Z.of_nat (length [to_js (mkExample "He can run fast." TNull)]) <= 1)%Z.
Proof.
  apply (applyDisplayPreferences_example_bound (to_js run_entry) default_settings
           (to_js (project (mkPrefs Relevant 1) run_entry)) 1
           [to_js (trim_sense 1 (mkSense "verb" "move fast" TNull
                                   [mkExample "He can run fast." TNull; mkExample "Run!" TNull]))]
           (to_js (trim_sense 1 (mkSense "verb" "move fast" TNull
                                   [mkExample "He can run fast." TNull; mkExample "Run!" TNull]))));
    try (vm_compute; reflexivity); [lia|left].
Defined.

Lemma applyDisplayPreferences_breaks_parallel_witness :
  exists v poss defs,
    applyDisplayPreferences (to_js run_entry) default_settings = Normal v /\
    js_get v "pos" = Normal (JArr poss) /\ js_get v "definition" = Normal (JArr defs) /\
    length defs = 1 /\ length poss = length (en_senses run_entry).
Proof.
  apply (applyDisplayPreferences_breaks_parallel _ (mkPrefs Relevant 1)); [reflexivity|reflexivity|reflexivity|simpl; lia].
Defined.

End Display.
