(* ===== verification/Gemini.v ===== *)
(** * The Gemini adapter: [normalizeGeminiData] (lines 38-63)

    [GeminiAdapter.normalizeGeminiData] follows the source over [jsval]: the
    null guard of line 39, the [forms.map] callback (the first definition
    of each form, the [||] defaults, the two shapes of an example), the
    pronunciation object and the result object with its property order.
    It returns [Normal None] for [null], [Normal (Some v)] for an object and
    [Throw] when the JavaScript code throws.

    The typed payload ([gpayload]) is the shape the spec documents for the
    provider, and [adapt_gemini] the adapter the spec describes; the
    refinement theorem shows the code computes it on every payload with a
    headword and a definition in every form, and the error theorems say what
    happens otherwise. *)

From S2P Require Import Prelude JsValue Entry.

Module GeminiAdapter.

(** ** The code *)

(** [v === 0] *)
Definition js_eq_zero (v : jsval) : bool := match v with JNum n => Z.eqb n 0 | _ => false end.

(** Line 39: [!aiData || !aiData.forms || aiData.forms.length === 0]. *)
Definition gemini_guard (aiData : jsval) : completion bool :=
  if negb (js_truthy aiData) then Normal true else
  forms <- js_get aiData "forms" ;;
  if negb (js_truthy forms) then Normal true else
  len <- js_get forms "length" ;;
  Normal (js_eq_zero len).

(** Lines 48-51: one example, a string or an object [{text, translation}]. *)
Definition normalize_example (ex : jsval) : completion jsval :=
  text <- (if String.eqb (js_typeof ex) "string" then Normal ex else js_get ex "text") ;;
  tr <- (if String.eqb (js_typeof ex) "object" then js_get ex "translation" else Normal JNull) ;;
  Normal (JObj [("text", text); ("translation", tr)]).

(** Lines 42-53: the callback of [aiData.forms.map]. *)
Definition normalize_form (form : jsval) : completion jsval :=
  defs <- js_get form "definitions" ;;
  firstDef <- js_idx defs 0 ;;
  pos <- js_get form "partOfSpeech" ;;
  text <- js_get firstDef "definition" ;;
  tr <- js_get firstDef "definitionTranslation" ;;
  exs <- js_get firstDef "examples" ;;
  example <- (if js_truthy exs then
                xs <- js_array_receiver exs "firstDef.examples" "map" ;;
                ys <- cmap_list normalize_example xs ;;
                Normal (JArr ys)
              else Normal (JArr [])) ;;
  Normal (JObj [("pos", js_or pos (JStr "unknown"));
                ("text", js_or text (JStr "No definition text found."));
                ("translation", js_or tr JNull);
                ("example", example)]).

Definition normalizeGeminiData (aiData : jsval) : completion (option jsval) :=
  isNull <- gemini_guard aiData ;;
  if isNull then Normal None else
  forms <- js_get aiData "forms" ;;
  fs <- js_array_receiver forms "aiData.forms" "map" ;;
  definitions <- cmap_list normalize_form fs ;;
  pron <- js_get aiData "pronunciation" ;;
  let pronunciation := JObj [("lang", JStr "us"); ("pron", js_or pron (JStr "")); ("url", JStr "")] in
  w <- js_get aiData "word" ;;
  ph <- js_get aiData "phrase" ;;
  tr <- js_get aiData "translation" ;;
  poss <- cmap_list (fun d => js_get d "pos") definitions ;;
  Normal (Some (JObj [("word", js_or w ph);
                      ("translation", js_or tr JNull);
                      ("pos", JArr poss);
                      ("verbs", JArr []);
                      ("pronunciation", JArr [pronunciation]);
                      ("definition", JArr definitions)])).

(** ** The provider's payload (spec §4.1, Provider B) *)

(** An example: a bare string, or a pair whose translation is [null] or a
    string. *)
Inductive gexample := GBare (s : string) | GPair (text : string) (tr : option string).

Record gdef := mkGDef {
  gd_definition : option string;
  gd_translation : option string;
  gd_examples : option (list gexample)
}.

Record gform := mkGForm { gf_pos : option string; gf_defs : list gdef }.

Record gpayload := mkGPayload {
  gp_word : option string;
  gp_phrase : option string;
  gp_translation : option string;
  gp_pronunciation : option string;
  gp_forms : list gform
}.

Definition gexample_js (e : gexample) : jsval :=
  match e with
  | GBare s => JStr s
  | GPair t tr => JObj [("text", JStr t); ("translation", match tr with Some s => JStr s | None => JNull end)]
  end.

Definition gdef_js (d : gdef) : jsval :=
  JObj (opt_prop "definition" (gd_definition d) ++ opt_prop "definitionTranslation" (gd_translation d) ++
        match gd_examples d with Some xs => [("examples", JArr (map gexample_js xs))] | None => [] end).

Definition gform_js (f : gform) : jsval :=
  JObj (opt_prop "partOfSpeech" (gf_pos f) ++ [("definitions", JArr (map gdef_js (gf_defs f)))]).

Definition gpayload_js (p : gpayload) : jsval :=
  JObj (opt_prop "word" (gp_word p) ++ opt_prop "phrase" (gp_phrase p) ++
        opt_prop "translation" (gp_translation p) ++ opt_prop "pronunciation" (gp_pronunciation p) ++
        [("forms", JArr (map gform_js (gp_forms p)))]).

(** ** The adapter of the spec *)

Definition nonempty (o : option string) : option string :=
  match o with Some s => if String.eqb s "" then None else Some s | None => None end.

(** [word || phrase], when one of them is a non-empty string. *)
Definition headword (p : gpayload) : option string :=
  match nonempty (gp_word p) with Some w => Some w | None => nonempty (gp_phrase p) end.

Definition adapt_example (e : gexample) : example :=
  match e with
  | GBare s => mkExample s TNull
  | GPair t tr => mkExample t (match tr with Some s => TStr s | None => TNull end)
  end.

Definition adapt_form (f : gform) : sense :=
  let d := default (mkGDef None None None) (head (gf_defs f)) in
  mkSense (or_default (gf_pos f) "unknown") (or_default (gd_definition d) "No definition text found.")
    (or_null (gd_translation d)) (map adapt_example (default [] (gd_examples d))).

Definition adapt_gemini (w : string) (p : gpayload) : entry :=
  let senses := map adapt_form (gp_forms p) in
  mkEntry w (or_null (gp_translation p)) (map sn_pos senses) []
    [mkPron "us" (default "" (gp_pronunciation p)) ""] senses.

(** Sample payloads: the spec's "run" example (§8), the same with a form
    that has no definition, and one with neither [word] nor [phrase]. *)
Definition run_payload : gpayload :=
  mkGPayload (Some "run") None None None
    [mkGForm (Some "verb") [mkGDef (Some "move fast") None (Some [GBare "He can run fast."])]].

Definition empty_form_payload : gpayload :=
  mkGPayload (Some "run") None None None [mkGForm (Some "verb") []].

Definition no_word_payload : gpayload :=
  mkGPayload None None None None
    [mkGForm (Some "verb") [mkGDef (Some "move fast") None None]].

(** ** Refinement *)

Lemma gdef_js_get d :
  js_get (gdef_js d) "definition" = Normal (opt_val (gd_definition d)) /\
  js_get (gdef_js d) "definitionTranslation" = Normal (opt_val (gd_translation d)) /\
  js_get (gdef_js d) "examples" =
    Normal (match gd_examples d with Some xs => JArr (map gexample_js xs) | None => JUndefined end).
Proof. by destruct d as [[] [] []]. Qed.

Lemma gform_js_get f :
  js_get (gform_js f) "definitions" = Normal (JArr (map gdef_js (gf_defs f))) /\
  js_get (gform_js f) "partOfSpeech" = Normal (opt_val (gf_pos f)).
Proof. by destruct f as [[] ?]. Qed.

Lemma gpayload_js_get p :
  js_get (gpayload_js p) "forms" = Normal (JArr (map gform_js (gp_forms p))) /\
  js_get (gpayload_js p) "pronunciation" = Normal (opt_val (gp_pronunciation p)) /\
  js_get (gpayload_js p) "word" = Normal (opt_val (gp_word p)) /\
  js_get (gpayload_js p) "phrase" = Normal (opt_val (gp_phrase p)) /\
  js_get (gpayload_js p) "translation" = Normal (opt_val (gp_translation p)).
Proof. by destruct p as [[] [] [] [] ?]. Qed.

Lemma js_or_nonempty o : nonempty o = None -> js_truthy (opt_val o) = false.
Proof. destruct o as [s|]; simpl; [|done]. by destruct (String.eqb s ""). Qed.

Lemma js_or_headword p w : headword p = Some w -> js_or (opt_val (gp_word p)) (opt_val (gp_phrase p)) = JStr w.
Proof.
  unfold headword, js_or, opt_val. destruct (nonempty (gp_word p)) as [a|] eqn:Ea.
  - intros [= <-]. destruct (gp_word p) as [a'|]; simpl in *; [|done].
    destruct (String.eqb a' ""); simpl in *; congruence.
  - fold (opt_val (gp_word p)). rewrite js_or_nonempty by done.
    destruct (gp_phrase p) as [b|]; simpl; [|done].
    destruct (String.eqb b ""); simpl; congruence.
Qed.

Lemma normalize_example_refines e : normalize_example (gexample_js e) = Normal (to_js (adapt_example e)).
Proof. by destruct e as [s|t []]. Qed.

Lemma normalize_form_refines f :
  gf_defs f <> [] -> normalize_form (gform_js f) = Normal (to_js (adapt_form f)).
Proof.
  intros Hne. destruct (gform_js_get f) as [Hdefs Hpos].
  unfold normalize_form. rewrite Hdefs, cbind_normal.
  destruct (gf_defs f) as [|d ds] eqn:Hf; [done|]. cbn [js_idx map nth_error default from_option id cbind].
  destruct (gdef_js_get d) as (Hd & Ht & Hx). rewrite Hpos, Hd, Ht, Hx. cbn [cbind].
  unfold adapt_form. rewrite Hf. cbn [head default from_option id].
  rewrite !js_or_default.
  destruct (gd_examples d) as [xs|]; cbn [js_truthy js_array_receiver cbind].
  - rewrite (cmap_list_map_normal _ _ (fun e => to_js (adapt_example e)))
      by (intros ? _; apply normalize_example_refines).
    cbn [cbind default from_option id]. rewrite sense_to_js. unfold sense_fields.
    cbn [sn_pos sn_text sn_translation sn_examples]. rewrite list_to_js, map_map.
    by rewrite tfield_props_or_null.
  - rewrite sense_to_js. unfold sense_fields. cbn [sn_pos sn_text sn_translation sn_examples].
    by rewrite tfield_props_or_null.
Qed.

Lemma sense_get_pos s : js_get (to_js s) "pos" = Normal (JStr (sn_pos s)).
Proof. reflexivity. Qed.

(** The refinement, shared by the theorems that compose it. *)
Lemma normalizeGeminiData_adapt p w :
  headword p = Some w -> gp_forms p <> [] -> Forall (fun f => gf_defs f <> []) (gp_forms p) ->
  normalizeGeminiData (gpayload_js p) = Normal (Some (to_js (adapt_gemini w p))).
Proof.
  intros Hw Hne Hdefs. destruct (gpayload_js_get p) as (Hforms & Hpron & Hword & Hphrase & Htr).
  unfold normalizeGeminiData, gemini_guard.
  change (js_truthy (gpayload_js p)) with true. cbn [negb]. rewrite Hforms. cbn [cbind js_truthy negb].
  rewrite js_get_length_arr, length_map. cbn [cbind js_eq_zero js_array_receiver].
  destruct (gp_forms p) as [|f0 fs] eqn:Hfs; [done|]. cbn [length]. rewrite <- Hfs.
  rewrite (proj2 (Z.eqb_neq _ _)) by lia.
  rewrite (cmap_list_map_normal normalize_form gform_js (fun f => to_js (adapt_form f)))
    by (intros f Hf; apply normalize_form_refines; rewrite Hfs in Hf; rewrite Forall_forall in Hdefs; auto).
  rewrite Hpron, Hword, Hphrase, Htr. cbn [cbind].
  rewrite (cmap_list_map_normal _ _ (fun f => JStr (sn_pos (adapt_form f)))) by (intros; apply sense_get_pos).
  cbn [cbind]. rewrite (js_or_headword p w Hw), js_or_default, or_default_empty.
  rewrite entry_to_js. unfold entry_fields, adapt_gemini. cbn [en_word en_translation en_pos en_verbs en_prons en_senses].
  rewrite tfield_props_or_null, !list_to_js, !map_map. done.
Qed.

(** C2. On every payload of the documented shape that has a headword
    ([word] or else [phrase], non-empty), at least one form, and a
    definition in every form, [normalizeGeminiData] returns the encoding of
    the spec's adapter: one sense per form from its first definition, the
    [||] defaults, parallel [pos], an empty audio URL. *)
Theorem normalizeGeminiData_refines p w :
  headword p = Some w -> gp_forms p <> [] -> Forall (fun f => gf_defs f <> []) (gp_forms p) ->
  normalizeGeminiData (gpayload_js p) = Normal (Some (to_js (adapt_gemini w p))).
Proof. exact (normalizeGeminiData_adapt p w). Qed.

(** ** Errors and the shape of the result on any value *)

Lemma gemini_guard_forms p : gp_forms p <> [] -> gemini_guard (gpayload_js p) = Normal false.
Proof.
  intros Hne. destruct (gpayload_js_get p) as (Hforms & _). unfold gemini_guard.
  change (js_truthy (gpayload_js p)) with true. cbn [negb]. rewrite Hforms. cbn [cbind js_truthy negb].
  rewrite js_get_length_arr, length_map. cbn [cbind js_eq_zero].
  destruct (gp_forms p); [done|]. cbn [length]. by rewrite (proj2 (Z.eqb_neq _ _)) by lia.
Qed.

(** C8. A form whose [definitions] array is empty makes the adapter throw
    (reading [definition] of [undefined], line 46), where the spec requires
    it to return [null]. *)
Theorem normalizeGeminiData_empty_definitions_throws p f :
  f ∈ gp_forms p -> gf_defs f = [] -> exists e, normalizeGeminiData (gpayload_js p) = Throw e.
Proof.
  intros Hin Hdefs. unfold normalizeGeminiData.
  rewrite gemini_guard_forms by (intros Heq; rewrite Heq in Hin; by apply not_elem_of_nil in Hin). cbn [cbind].
  destruct (gpayload_js_get p) as (Hforms & _). rewrite Hforms. cbn [cbind js_array_receiver].
  destruct (cmap_list_throws normalize_form (map gform_js (gp_forms p)) (gform_js f)
              (read_error "undefined" "definition")) as [e ->].
  - by apply list_elem_of_fmap_2.
  - destruct (gform_js_get f) as [Hd Hp]. unfold normalize_form. rewrite Hd, Hp, Hdefs. done.
  - eauto.
Qed.

(** C20. On any value, a result of the adapter is an object whose [pos] and
    [definition] arrays are parallel and non-empty (spec §3). *)
Theorem normalizeGeminiData_parallel v r :
  normalizeGeminiData v = Normal (Some r) ->
  exists poss defs, js_get r "pos" = Normal (JArr poss) /\ js_get r "definition" = Normal (JArr defs) /\
    length poss = length defs /\ defs <> [].
Proof.
  unfold normalizeGeminiData. intros H. inv_cbind.
  destruct x as [|]; [discriminate|]. inv_cbind.
  do 2 eexists; split; [reflexivity|split; [reflexivity|split]].
  - by eapply cmap_list_length.
  - intros ->.
    match goal with Hd : cmap_list normalize_form _ = Normal [] |- _ => apply cmap_list_length in Hd end.
    match goal with
    | Hg : gemini_guard v = Normal false, Hf : js_get v "forms" = Normal ?fs,
      Hr : js_array_receiver ?fs _ _ = Normal ?xs |- _ =>
        destruct xs; [|discriminate]; unfold gemini_guard in Hg;
        destruct (js_truthy v); cbn [negb] in Hg; [|discriminate];
        rewrite Hf in Hg; cbn [cbind] in Hg;
        destruct fs; cbn in Hr; try discriminate; injection Hr as ->; cbn in Hg; discriminate
    end.
Qed.

(** C21. A payload with neither [word] nor [phrase] is not rejected by the
    adapter: it returns an entry whose [word] is [undefined] (the spec asks
    for [null]); the listener's check of line 164 rejects it later. *)
Theorem normalizeGeminiData_no_headword p :
  gp_word p = None -> gp_phrase p = None -> gp_forms p <> [] -> Forall (fun f => gf_defs f <> []) (gp_forms p) ->
  exists r, normalizeGeminiData (gpayload_js p) = Normal (Some r) /\ js_get r "word" = Normal JUndefined.
Proof.
  intros Hw Hp Hne Hdefs. destruct (gpayload_js_get p) as (Hforms & Hpron & Hword & Hphrase & Htr).
  unfold normalizeGeminiData. rewrite gemini_guard_forms by done. cbn [cbind].
  rewrite Hforms. cbn [cbind js_array_receiver].
  rewrite (cmap_list_map_normal normalize_form gform_js (fun f => to_js (adapt_form f)))
    by (intros f Hf; apply normalize_form_refines; rewrite Forall_forall in Hdefs; auto).
  rewrite Hpron, Hword, Hphrase, Htr, Hw, Hp. cbn [cbind].
  rewrite (cmap_list_map_normal _ _ (fun f => JStr (sn_pos (adapt_form f)))) by (intros; apply sense_get_pos).
  eexists; split; reflexivity.
Qed.

(** ** Witnesses *)

Lemma normalizeGeminiData_refines_witness :
  normalizeGeminiData (gpayload_js run_payload) = Normal (Some (to_js (adapt_gemini "run" run_payload))).
Proof.
  apply normalizeGeminiData_refines; [reflexivity|discriminate|].
  repeat constructor. discriminate.
Defined.

Lemma normalizeGeminiData_empty_definitions_throws_witness :
  exists e, normalizeGeminiData (gpayload_js empty_form_payload) = Throw e.
Proof. apply (normalizeGeminiData_empty_definitions_throws _ (mkGForm (Some "verb") [])); [left|reflexivity]. Defined.

Lemma normalizeGeminiData_parallel_witness :
  exists poss defs, js_get (to_js (adapt_gemini "run" run_payload)) "pos" = Normal (JArr poss) /\
    js_get (to_js (adapt_gemini "run" run_payload)) "definition" = Normal (JArr defs) /\
    length poss = length defs /\ defs <> [].
Proof. apply (normalizeGeminiData_parallel (gpayload_js run_payload)). vm_compute. reflexivity. Defined.

Lemma normalizeGeminiData_no_headword_witness :
  exists r, normalizeGeminiData (gpayload_js no_word_payload) = Normal (Some r) /\
    js_get r "word" = Normal JUndefined.
Proof.
  apply normalizeGeminiData_no_headword; [reflexivity|reflexivity|discriminate|].
  repeat constructor. discriminate.
Defined.

End GeminiAdapter.
