(* ===== verification/MerriamWebster.v ===== *)
(** * The Merriam-Webster adapter: [normalizeMwData] (lines 16-36)

    [MwAdapter.normalizeMwData] follows the source over [jsval]: the guard
    of line 17, the pronunciation with the audio bucket rule
    ([audio_subdir], line 24), the definition with its fallbacks, the two
    example strategies (the supplemental examples, else the [vis] item of
    the first sense inside a [try] whose failures are swallowed,
    [vis_example]), and the headword [meta.id.split(':')[0]].

    The typed payload [mw_payload] is the documented shape of the provider's
    first entry, and [adapt_mw] the adapter the spec describes (§4.1,
    Provider A). *)

From S2P Require Import Prelude JsValue JsString Entry.

Module MwAdapter.

(** ** The code *)

Definition audio_base : string := "https://media.merriam-webster.com/audio/prons/en/us/wav/".

(** Line 24: the bucket (subdirectory) of an audio token. *)
Definition audio_subdir (audioFile : string) : string :=
  if starts_with audioFile "bix" then "bix"
  else if starts_with audioFile "gg" then "gg"
  else if matches_underscore_digit audioFile then "number"
  else char_at0 audioFile.

Definition audio_url (audioFile : string) : string :=
  audio_base +:+ audio_subdir audioFile +:+ "/" +:+ audioFile +:+ ".wav".

(** Line 17. *)
Definition mw_guard (mwData : jsval) : completion bool :=
  if negb (js_truthy mwData) then Normal true else
  len <- js_get mwData "length" ;;
  if (match len with JNum n => Z.eqb n 0 | _ => false end) then Normal true else
  first <- js_idx mwData 0 ;;
  Normal (negb (String.eqb (js_typeof first) "object")).

(** Lines 19-27: the pronunciation object. *)
Definition mw_pronunciation (entry : jsval) : completion jsval :=
  hwi <- js_get entry "hwi" ;;
  c <- js_and_then hwi (prs <- js_get hwi "prs" ;; js_and_then prs (js_idx prs 0)) ;;
  if negb (js_truthy c) then Normal (JObj [("lang", JStr "us"); ("pron", JStr ""); ("url", JStr "")]) else
  prs <- js_get hwi "prs" ;;
  pr0 <- js_idx prs 0 ;;
  mw <- js_get pr0 "mw" ;;
  let pron := "/" +:+ js_to_string mw +:+ "/" in
  sound <- js_get pr0 "sound" ;;
  if negb (js_truthy sound) then Normal (JObj [("lang", JStr "us"); ("pron", JStr pron); ("url", JStr "")]) else
  audio <- js_get sound "audio" ;;
  audioFile <- js_string_receiver audio "audioFile" "startsWith" ;;
  Normal (JObj [("lang", JStr "us"); ("pron", JStr pron); ("url", JStr (audio_url audioFile))]).

(** The body of the [try] of line 33: the text of the first [vis] item of
    the first sense, stripped of [{wi}] markup, if there is one. *)
Definition vis_example (sseq : jsval) : completion (option string) :=
  s0 <- js_idx sseq 0 ;;
  s00 <- js_idx s0 0 ;;
  firstSense <- js_idx s00 1 ;;
  dt <- js_get firstSense "dt" ;;
  if negb (js_truthy dt && js_is_array dt) then Normal None else
  items <- js_array_receiver dt "firstSense.dt" "find" ;;
  vis <- cfind (fun item => i0 <- js_idx item 0 ;; Normal (js_eq_str i0 "vis")) items ;;
  match vis with
  | Some visExample =>
      if negb (js_truthy visExample) then Normal None else
      v1 <- js_idx visExample 1 ;;
      v10 <- js_idx v1 0 ;;
      t <- js_get v10 "t" ;;
      text <- js_string_receiver t "visExample[1][0].t" "replace" ;;
      Normal (Some (strip_tokens wi_tokens text))
  | None => Normal None
  end.

(** [try { ... } catch (e) { console.log(...) }]: a failure yields nothing. *)
Definition try_swallow {A} (c : completion (option A)) : option A :=
  match c with Normal o => o | Throw _ => None end.

(** Lines 29-34: the examples of the definition. *)
Definition mw_examples (entry : jsval) : completion (list jsval) :=
  suppl <- js_get entry "suppl" ;;
  c <- js_and_then suppl (exs <- js_get suppl "examples" ;;
                          js_and_then exs (len <- js_get exs "length" ;; Normal (JBool (js_gt len (JNum 0))))) ;;
  if js_truthy c then
    exs <- js_get suppl "examples" ;;
    ex0 <- js_idx exs 0 ;;
    t <- js_get ex0 "t" ;;
    text <- js_string_receiver t "exampleText" "replace" ;;
    Normal [JObj [("text", JStr (strip_tokens it_tokens text))]]
  else
    def <- js_get entry "def" ;;
    c' <- js_and_then def (d0 <- js_idx def 0 ;; js_get d0 "sseq") ;;
    if js_truthy c' then
      match try_swallow (vis_example c') with
      | Some text => Normal [JObj [("text", JStr text)]]
      | None => Normal []
      end
    else Normal [].

Definition normalizeMwData (mwData : jsval) : completion (option jsval) :=
  isNull <- mw_guard mwData ;;
  if isNull then Normal None else
  entry <- js_idx mwData 0 ;;
  pronunciation <- mw_pronunciation entry ;;
  fl <- js_get entry "fl" ;;
  shortdef <- js_get entry "shortdef" ;;
  sd0 <- js_idx shortdef 0 ;;
  example <- mw_examples entry ;;
  let definition := JObj [("pos", js_or fl (JStr "unknown"));
                          ("text", js_or sd0 (JStr "No definition found."));
                          ("example", JArr example)] in
  meta <- js_get entry "meta" ;;
  id <- js_get meta "id" ;;
  idstr <- js_string_receiver id "entry.meta.id" "split" ;;
  Normal (Some (JObj [("word", JStr (split_first ":"%char idstr));
                      ("pos", JArr [js_or fl (JStr "unknown")]);
                      ("verbs", JArr []);
                      ("pronunciation", JArr [pronunciation]);
                      ("definition", JArr [definition])])).

(** ** The provider's payload (spec §4.1, Provider A) *)

(** An item of the [dt] list of a sense: a tagged text, or a [vis] item
    with its illustrative texts. *)
Inductive mw_dt := DtText (tag : string) (text : string) | DtVis (texts : list string).

(** A pronunciation of [hwi.prs]: its [mw] text and its audio token. *)
Record mw_pr := mkMwPr { pr_mw : string; pr_audio : option string }.

(** The first entry of a response: [meta.id], [hwi.prs] (none: no [hwi]),
    [fl], [shortdef], the texts of [suppl.examples] (none: no [suppl]) and
    the [dt] list of the first sense of [def] (none: no [def]). *)
Record mw_payload := mkMw {
  mw_id : string;
  mw_prs : list mw_pr;
  mw_fl : option string;
  mw_shortdef : list string;
  mw_suppl : list string;
  mw_dt_items : option (list mw_dt)
}.

Definition t_obj (t : string) : jsval := JObj [("t", JStr t)].

Definition dt_js (d : mw_dt) : jsval :=
  match d with
  | DtText tag s => JArr [JStr tag; JStr s]
  | DtVis ts => JArr [JStr "vis"; JArr (map t_obj ts)]
  end.

Definition pr_js (pr : mw_pr) : jsval :=
  JObj (("mw", JStr (pr_mw pr)) ::
        match pr_audio pr with Some a => [("sound", JObj [("audio", JStr a)])] | None => [] end).

(** [def]: one definition whose sense sequence holds the first sense. *)
Definition def_js (items : list mw_dt) : jsval :=
  JArr [JObj [("sseq", JArr [JArr [JArr [JStr "sense"; JObj [("dt", JArr (map dt_js items))]]]])]].

(** The entry object with a given [def] property (none: absent). *)
Definition mw_entry_js_with (p : mw_payload) (def : option jsval) : jsval :=
  JObj ([("meta", JObj [("id", JStr (mw_id p))])] ++
        match mw_prs p with [] => [] | prs => [("hwi", JObj [("prs", JArr (map pr_js prs))])] end ++
        opt_prop "fl" (mw_fl p) ++
        [("shortdef", JArr (map JStr (mw_shortdef p)))] ++
        match mw_suppl p with [] => [] | ts => [("suppl", JObj [("examples", JArr (map t_obj ts))])] end ++
        match def with None => [] | Some d => [("def", d)] end).

Definition mw_entry_js (p : mw_payload) : jsval := mw_entry_js_with p (option_map def_js (mw_dt_items p)).

(** The response: an array whose first element is the entry. *)
Definition mw_js (p : mw_payload) : jsval := JArr [mw_entry_js p].

(** ** The adapter of the spec *)

Fixpoint first_vis (items : list mw_dt) : option (list string) :=
  match items with
  | [] => None
  | DtVis ts :: _ => Some ts
  | DtText _ _ :: items' => first_vis items'
  end.

Definition mw_example_texts (p : mw_payload) : list string :=
  match mw_suppl p with
  | t :: _ => [strip_tokens it_tokens t]
  | [] =>
      match mw_dt_items p with
      | Some items => match first_vis items with Some (t :: _) => [strip_tokens wi_tokens t] | _ => [] end
      | None => []
      end
  end.

Definition adapt_pron (p : mw_payload) : pronunciation :=
  match mw_prs p with
  | [] => mkPron "us" "" ""
  | pr :: _ => mkPron "us" ("/" +:+ pr_mw pr +:+ "/") (match pr_audio pr with Some a => audio_url a | None => "" end)
  end.

(** The entry of a payload with the given example texts. *)
Definition adapt_mw_with (p : mw_payload) (texts : list string) : entry :=
  let pos := or_default (mw_fl p) "unknown" in
  mkEntry (split_first ":"%char (mw_id p)) TAbsent [pos] [] [adapt_pron p]
    [mkSense pos (or_default (head (mw_shortdef p)) "No definition found.") TAbsent
       (map (fun t => mkExample t TAbsent) texts)].

Definition adapt_mw (p : mw_payload) : entry := adapt_mw_with p (mw_example_texts p).

(** Sample payloads: an entry whose example comes from the [vis] item of
    its first sense, and the token examples of spec §8. *)
Definition run_mw : mw_payload :=
  mkMw "run:1" [mkMwPr "ˈrən" (Some "run00001")] (Some "verb") ["to go faster than a walk"] []
    (Some [DtText "text" "{bc}to go"; DtVis ["{wi}run{/wi} fast"]]).

(** A payload whose [dt] items tagged ["vis"] are [vis] items. *)
Definition dt_wf (p : mw_payload) : Prop :=
  forall items tag s, mw_dt_items p = Some items -> DtText tag s ∈ items -> tag <> "vis".

(** ** Refinement *)

Lemma mw_entry_get p def :
  js_get (mw_entry_js_with p def) "meta" = Normal (JObj [("id", JStr (mw_id p))]) /\
  js_get (mw_entry_js_with p def) "hwi" =
    Normal (match mw_prs p with [] => JUndefined | prs => JObj [("prs", JArr (map pr_js prs))] end) /\
  js_get (mw_entry_js_with p def) "fl" = Normal (opt_val (mw_fl p)) /\
  js_get (mw_entry_js_with p def) "shortdef" = Normal (JArr (map JStr (mw_shortdef p))) /\
  js_get (mw_entry_js_with p def) "suppl" =
    Normal (match mw_suppl p with [] => JUndefined | ts => JObj [("examples", JArr (map t_obj ts))] end) /\
  js_get (mw_entry_js_with p def) "def" = Normal (default JUndefined def).
Proof. destruct p as [id [|? ?] [?|] sd [|? ?] ?], def; repeat split. Qed.

Lemma mw_pronunciation_refines p def :
  mw_pronunciation (mw_entry_js_with p def) = Normal (to_js (adapt_pron p)).
Proof.
  destruct (mw_entry_get p def) as (_ & Hhwi & _). unfold mw_pronunciation. rewrite Hhwi.
  unfold adapt_pron. destruct (mw_prs p) as [|[m [a|]] prs]; reflexivity.
Qed.

Lemma dt_find items :
  (forall tag s, DtText tag s ∈ items -> tag <> "vis") ->
  cfind (fun item => i0 <- js_idx item 0 ;; Normal (js_eq_str i0 "vis")) (map dt_js items) =
  Normal (option_map (fun ts => dt_js (DtVis ts)) (first_vis items)).
Proof.
  induction items as [|[tag txt|ts] items IH]; intros Hwf; [done| |done].
  cbn [map cfind dt_js js_idx nth_error default from_option id cbind js_eq_str first_vis].
  rewrite (proj2 (String.eqb_neq tag "vis")) by (apply (Hwf tag txt); set_solver).
  apply IH. intros tag' s' Hin. apply (Hwf tag' s'). set_solver.
Qed.

Lemma vis_example_def items :
  (forall tag s, DtText tag s ∈ items -> tag <> "vis") ->
  try_swallow (vis_example (JArr [JArr [JArr [JStr "sense"; JObj [("dt", JArr (map dt_js items))]]]])) =
  match first_vis items with Some (t :: _) => Some (strip_tokens wi_tokens t) | _ => None end.
Proof.
  intros Hwf. unfold vis_example. cbn [js_idx nth_error default from_option id cbind js_get].
  cbn [assoc_lookup String.eqb Ascii.eqb Bool.eqb andb default from_option id js_truthy js_is_array negb andb].
  cbn [js_array_receiver cbind]. rewrite dt_find by done.
  destruct (first_vis items) as [[|t ts]|]; reflexivity.
Qed.

(** The adapter computes the entry of [adapt_mw_with] whenever the
    examples part computes the given texts. *)
Lemma normalizeMwData_with p def texts :
  mw_examples (mw_entry_js_with p def) = Normal (map (fun t => to_js (mkExample t TAbsent)) texts) ->
  normalizeMwData (JArr [mw_entry_js_with p def]) = Normal (Some (to_js (adapt_mw_with p texts))).
Proof.
  intros Hex. destruct (mw_entry_get p def) as (Hmeta & _ & Hfl & Hsd & _).
  unfold normalizeMwData. change (mw_guard (JArr [mw_entry_js_with p def])) with (Normal false).
  cbn [cbind js_idx nth_error default from_option id].
  rewrite mw_pronunciation_refines, Hfl, Hsd, Hex, Hmeta. cbn [cbind js_get assoc_lookup String.eqb].
  cbn [js_idx js_string_receiver cbind default from_option id].
  rewrite entry_to_js. unfold entry_fields, adapt_mw_with.
  cbn [en_word en_translation en_pos en_verbs en_prons en_senses tfield_props app].
  rewrite js_or_default, !list_to_js. cbn [map]. rewrite sense_to_js. unfold sense_fields.
  cbn [sn_pos sn_text sn_translation sn_examples tfield_props app]. rewrite list_to_js, map_map.
  destruct (mw_shortdef p) as [|sd0 sds]; cbn [map nth_error default from_option id head];
    rewrite <- ?js_or_default; reflexivity.
Qed.

Lemma mw_examples_suppl p def t ts :
  mw_suppl p = t :: ts ->
  mw_examples (mw_entry_js_with p def) = Normal [to_js (mkExample (strip_tokens it_tokens t) TAbsent)].
Proof.
  intros Hs. destruct (mw_entry_get p def) as (_ & _ & _ & _ & Hsuppl & _).
  unfold mw_examples. rewrite Hsuppl, Hs. reflexivity.
Qed.

(** With no supplemental examples, the examples come from [def]. *)
Lemma mw_examples_def p def :
  mw_suppl p = [] ->
  mw_examples (mw_entry_js_with p def) =
  (d <- Normal (default JUndefined def) ;;
   c' <- js_and_then d (d0 <- js_idx d 0 ;; js_get d0 "sseq") ;;
   if js_truthy c' then
     match try_swallow (vis_example c') with
     | Some text => Normal [JObj [("text", JStr text)]]
     | None => Normal []
     end
   else Normal []).
Proof.
  intros Hs. destruct (mw_entry_get p def) as (_ & _ & _ & _ & Hsuppl & Hdef).
  unfold mw_examples. rewrite Hsuppl, Hs. cbn [cbind js_and_then js_truthy]. by rewrite Hdef.
Qed.

(** C3. On every payload of the documented shape, [normalizeMwData]
    returns the encoding of the spec's adapter: headword before the first
    [:], part of speech defaulting to ["unknown"], the first short
    definition or ["No definition found."], the pronunciation in slashes
    with the bucketed audio URL, and the first supplemental example with
    [{it}] markup removed, else the first [vis] text with [{wi}] removed. *)
Theorem normalizeMwData_refines p :
  dt_wf p -> normalizeMwData (mw_js p) = Normal (Some (to_js (adapt_mw p))).
Proof.
  intros Hwf. apply normalizeMwData_with. unfold mw_example_texts.
  destruct (mw_suppl p) as [|t ts] eqn:Hs; [|by apply (mw_examples_suppl p _ t ts)].
  rewrite mw_examples_def by done. cbn [cbind].
  destruct (mw_dt_items p) as [items|] eqn:Hd; [|reflexivity]. cbn [option_map default from_option id].
  unfold def_js.
  cbn [js_and_then js_truthy js_idx nth_error default from_option id cbind js_get assoc_lookup String.eqb].
  cbn [Ascii.eqb Bool.eqb andb default from_option id js_truthy].
  rewrite vis_example_def by (intros tag s0 Hin; exact (Hwf items tag s0 Hd Hin)).
  by destruct (first_vis items) as [[|t ts]|].
Qed.



(** C22. A structural failure in the sense sequence is swallowed: for any
    value of [def[0].sseq], when there is no supplemental example, the
    adapter still returns the entry, with at most one example. *)
Theorem normalizeMwData_sseq_swallowed p (sseq : jsval) :
  mw_suppl p = [] ->
  exists texts, length texts <= 1 /\
    normalizeMwData (JArr [mw_entry_js_with p (Some (JArr [JObj [("sseq", sseq)]]))]) =
    Normal (Some (to_js (adapt_mw_with p texts))).
Proof.
  intros Hs.
  exists (if js_truthy sseq then match try_swallow (vis_example sseq) with Some t => [t] | None => [] end
          else []).
  split.
  - destruct (js_truthy sseq); [destruct (try_swallow _)|]; simpl; lia.
  - apply normalizeMwData_with. rewrite mw_examples_def by done.
    cbn [cbind default from_option id js_and_then js_truthy js_idx nth_error js_get assoc_lookup].
    cbn [String.eqb Ascii.eqb Bool.eqb andb default from_option id].
    destruct (js_truthy sseq); [destruct (try_swallow (vis_example sseq))|]; reflexivity.
Qed.

(** C9. The guard [entry.def[0].sseq] of line 32 is outside the [try]:
    an empty [def] array makes the adapter throw (reading [sseq] of
    [undefined]) instead of yielding an entry without examples. *)
Theorem normalizeMwData_empty_def_throws p :
  mw_suppl p = [] ->
  exists e, normalizeMwData (JArr [mw_entry_js_with p (Some (JArr []))]) = Throw e.
Proof.
  intros Hs. destruct (mw_entry_get p (Some (JArr []))) as (_ & _ & Hfl & Hsd & _).
  unfold normalizeMwData. change (mw_guard (JArr [mw_entry_js_with p (Some (JArr []))])) with (Normal false).
  cbn [cbind js_idx nth_error default from_option id].
  rewrite mw_pronunciation_refines, Hfl, Hsd, mw_examples_def by done. cbn [cbind].
  destruct (mw_shortdef p); eexists; reflexivity.
Qed.

(** ** Witnesses *)

Lemma normalizeMwData_refines_witness :
  normalizeMwData (mw_js run_mw) = Normal (Some (to_js (adapt_mw run_mw))).
Proof.
  apply normalizeMwData_refines. intros items tag s [= <-] Hin.
  apply elem_of_cons in Hin as [[= -> _]|Hin]; [discriminate|].
  apply elem_of_cons in Hin as [Hin|Hin]; [discriminate|]. by apply not_elem_of_nil in Hin.
Defined.


Lemma normalizeMwData_sseq_swallowed_witness :
  exists texts, length texts <= 1 /\
    normalizeMwData (JArr [mw_entry_js_with run_mw (Some (JArr [JObj [("sseq", JNum 3)]]))]) =
    Normal (Some (to_js (adapt_mw_with run_mw texts))).
Proof. apply normalizeMwData_sseq_swallowed. reflexivity. Defined.

Lemma normalizeMwData_empty_def_throws_witness :
  exists e, normalizeMwData (JArr [mw_entry_js_with run_mw (Some (JArr []))]) = Throw e.
Proof. apply normalizeMwData_empty_def_throws. reflexivity. Defined.

End MwAdapter.
