(* ===== verification/CacheKey.v ===== *)
(** * The cache keys (lines 95-98 and 195-198)

    [Keys.display_cache_key] is the key of a definition lookup: the
    template literal of line 98 over the provider (defaulted at line 95),
    the lower-cased word, the raw stored [definitionScope] and
    [exampleCount] (not their defaults), and the target language (defaulted
    at line 97).  [Keys.sentence_cache_key] is the key of a sentence
    translation: the percent-encoding of lines 195-197 and the target
    language.  The theorems show both keys injective in their fields as
    long as the fields other than the word or sentence contain no [_] (the
    word itself may), and that the display key distinguishes stored
    settings that project identically. *)

From S2P Require Import Prelude JsValue JsString Entry Preferences.

Module Keys.

(** ** The code *)

(** Line 98: [qdp_${source}_${word}_${scope}_${count}_${targetLanguage}]. *)
Definition display_key (source : jsval) (word : string) (scope count lang : jsval) : string :=
  "qdp_" +:+ js_to_string source +:+ "_" +:+ word +:+ "_" +:+ js_to_string scope +:+ "_" +:+
  js_to_string count +:+ "_" +:+ js_to_string lang.

(** Lines 95-98, reading the settings object. *)
Definition display_cache_key (settings : jsval) (word : string) : completion string :=
  ps <- js_get settings "preferredSource" ;;
  tl <- js_get settings "targetLanguage" ;;
  ds <- js_get settings "definitionScope" ;;
  ec <- js_get settings "exampleCount" ;;
  Normal (display_key (js_or ps (JStr "cambridge")) word ds ec (js_or tl (JStr "none"))).

(** Lines 195-198: [qdp_sentence_${encodedSentence}_${targetLanguage}]. *)
Definition sentence_cache_key (sentence : jsval) (lang : jsval) : string :=
  "qdp_sentence_" +:+ encode_sentence (js_to_string sentence) +:+ "_" +:+ js_to_string lang.

(** ** Fields without the delimiter *)

Definition no_underscore (s : string) : bool := str_forallb (fun c => negb (Ascii.eqb c "_"%char)) s.

(** The fields of a display key other than the word contain no [_]. *)
Definition key_fields_ok (source scope count lang : jsval) : bool :=
  no_underscore (js_to_string source) && no_underscore (js_to_string scope) &&
  no_underscore (js_to_string count) && no_underscore (js_to_string lang).

(** ** Lemmas *)

Lemma no_underscore_spec s : no_underscore s = true -> "_"%char ∉ String.list_ascii_of_string s.
Proof.
  induction s as [|c s IH]; simpl; [set_solver|].
  intros [Hc Hs]%andb_prop. apply negb_true_iff, Ascii.eqb_neq in Hc.
  rewrite elem_of_cons. intros [Heq|H]; [congruence|]. by apply IH.
Qed.

Lemma string_split_l a1 a2 r1 r2 :
  no_underscore a1 = true -> no_underscore a2 = true ->
  a1 +:+ "_" +:+ r1 = a2 +:+ "_" +:+ r2 -> a1 = a2 /\ r1 = r2.
Proof.
  intros H1 H2 H. apply (f_equal String.list_ascii_of_string) in H.
  rewrite !list_ascii_of_string_app in H. simpl in H.
  destruct (split_sep_l "_"%char _ _ _ _ (no_underscore_spec _ H1) (no_underscore_spec _ H2) H).
  split; by apply list_ascii_of_string_inj.
Qed.

Lemma string_split_r a1 a2 r1 r2 :
  no_underscore a1 = true -> no_underscore a2 = true ->
  r1 +:+ "_" +:+ a1 = r2 +:+ "_" +:+ a2 -> r1 = r2 /\ a1 = a2.
Proof.
  intros H1 H2 H. apply (f_equal String.list_ascii_of_string) in H.
  rewrite !list_ascii_of_string_app in H. simpl in H.
  destruct (split_sep_r "_"%char _ _ _ _ (no_underscore_spec _ H1) (no_underscore_spec _ H2) H).
  split; by apply list_ascii_of_string_inj.
Qed.

Lemma key_tail_shape (w d c l : string) :
  w +:+ "_" +:+ d +:+ "_" +:+ c +:+ "_" +:+ l = ((w +:+ "_" +:+ d) +:+ "_" +:+ c) +:+ "_" +:+ l.
Proof. by rewrite !string_app_assoc. Qed.

(** C14. The display key determines its fields: two keys are equal only if
    provider, word, stored scope, stored count and target language print
    the same, whenever the fields other than the word contain no [_] (the
    word may contain [_]). *)
Theorem display_key_inj s1 w1 d1 c1 l1 s2 w2 d2 c2 l2 :
  key_fields_ok s1 d1 c1 l1 = true -> key_fields_ok s2 d2 c2 l2 = true ->
  display_key s1 w1 d1 c1 l1 = display_key s2 w2 d2 c2 l2 ->
  js_to_string s1 = js_to_string s2 /\ w1 = w2 /\ js_to_string d1 = js_to_string d2 /\
  js_to_string c1 = js_to_string c2 /\ js_to_string l1 = js_to_string l2.
Proof.
  unfold key_fields_ok, display_key. intros Hok1 Hok2 H.
  repeat match goal with Hb : _ && _ = true |- _ => apply andb_prop in Hb as [? ?] end.
  apply string_app_inj_l in H.
  apply string_split_l in H as [Hs H]; [|done|done].
  rewrite !key_tail_shape in H.
  apply string_split_r in H as [H Hl]; [|done|done].
  apply string_split_r in H as [H Hc]; [|done|done].
  apply string_split_r in H as [Hw Hd]; [|done|done].
  done.
Qed.

(** C15. The sentence key determines the sentence and the target language
    (a language without [_]): the percent-encoding of lines 195-197 is
    injective even though it leaves [_] unescaped. *)
Theorem sentence_cache_key_inj t1 l1 t2 l2 :
  no_underscore (js_to_string l1) = true -> no_underscore (js_to_string l2) = true ->
  sentence_cache_key t1 l1 = sentence_cache_key t2 l2 ->
  js_to_string t1 = js_to_string t2 /\ js_to_string l1 = js_to_string l2.
Proof.
  unfold sentence_cache_key. intros H1 H2 H.
  apply string_app_inj_l, string_split_r in H as [He Hl]; [|done|done].
  split; [by apply encode_sentence_inj|done].
Qed.

(** C24. The key is built from the raw stored [definitionScope] and
    [exampleCount], not from the preferences they denote: empty settings
    and the explicit defaults project identically but are cached under
    different keys, for every word. *)
Theorem display_key_raw_settings word :
  Display.prefs_of (JObj []) = Display.prefs_of Display.default_settings /\
  display_cache_key (JObj []) word <> display_cache_key Display.default_settings word.
Proof.
  split; [reflexivity|]. unfold display_cache_key. cbn. intros [= H].
  unfold display_key in H. apply string_app_inj_l in H. rewrite !key_tail_shape in H.
  apply string_split_r in H as [H _]; [|reflexivity|reflexivity].
  apply string_split_r in H as [_ Hc]; [discriminate|reflexivity|reflexivity].
Qed.

(** ** Witnesses *)

Lemma display_key_inj_witness :
  js_to_string (JStr "gemini") = js_to_string (JStr "gemini") /\ "pick_up" = "pick_up" /\
  js_to_string (JStr "all") = js_to_string (JStr "all") /\
  js_to_string (JNum 2) = js_to_string (JNum 2) /\ js_to_string (JStr "es") = js_to_string (JStr "es").
Proof.
  apply (display_key_inj (JStr "gemini") "pick_up" (JStr "all") (JNum 2) (JStr "es")
                         (JStr "gemini") "pick_up" (JStr "all") (JNum 2) (JStr "es"));
    reflexivity.
Defined.

Lemma sentence_cache_key_inj_witness :
  js_to_string (JStr "It's (fine)!") = js_to_string (JStr "It's (fine)!") /\
  js_to_string (JStr "fr") = js_to_string (JStr "fr").
Proof. apply (sentence_cache_key_inj _ (JStr "fr") _ (JStr "fr")); reflexivity. Defined.

End Keys.
