(* ===== verification/Handler.v ===== *)
(** * The message listener (lines 90-231)

    [Listener.onMessage] is the [chrome.runtime.onMessage] listener: it
    dispatches on [message.type] to [getDefinition] (lines 91-180) and
    [translateSentence] (lines 182-230).  The state it reads and writes is
    [chrome.storage.local], a [gmap string jsval] holding both the settings
    and the cache.  Network access is an input: [network] gives the outcome
    of every [fetch] (a rejection, a body that is not JSON, or a JSON value)
    and, for the one [Promise.all] of the code, which rejection settles
    first.  A run records its effects in order ([EGet], [EFetch], [ESet],
    [ERespond]) and returns the storage after it; [Throw] is a listener
    that throws before any callback is registered.

    [getDefinition_run] and [translate_run] are the closed forms of the two
    handlers on a string argument, with the settings reads done; the
    theorems reason on them: exactly one answer per handled message, cache
    coherence and reuse, settings never written, the fetches of each
    provider branch, the end-to-end Gemini phrase pipeline, and the
    failure of a Gemini word lookup when the Cambridge request is
    rejected. *)

From stdpp Require Import gmap.
From S2P Require Import Prelude JsValue JsString Entry Preferences Gemini MerriamWebster CacheKey.

Module Listener.

(** ** Environment *)

Inductive fetch_outcome :=
| FetchReject (msg : string)
| FetchBody (body : option jsval).

Record network := mkNetwork {
  fetch_result : string -> fetch_outcome;
  gemini_settles_first : bool
}.

Inductive response :=
| RSuccess (data tts : jsval)
| RError (msg : string)
| RNoLanguage (msg : string).

Inductive effect :=
| EGet (keys : list string)
| EFetch (url : string)
| ESet (key : string) (v : jsval)
| ERespond (r : response).

Record outcome := mkOutcome { effects : list effect; storage_after : gmap string jsval }.

(** [chrome.storage.local.get(keys)]: the stored properties among [keys]. *)
Definition storage_fields (st : gmap string jsval) (keys : list string) : list (string * jsval) :=
  foldr (fun k acc => match st !! k with Some v => (k, v) :: acc | None => acc end) [] keys.

Definition storage_get (st : gmap string jsval) (keys : list string) : jsval := JObj (storage_fields st keys).

(** [fetch(url).then(res => res.json())] *)
Definition fetch_json (net : network) (url : string) : completion jsval :=
  match fetch_result net url with
  | FetchReject m => Throw (TypeError m)
  | FetchBody None => Throw (SyntaxError "Unexpected token in JSON")
  | FetchBody (Some v) => Normal v
  end.

(** [fetch(url).then(res => res.json().catch(() => null))] (line 133):
    only the JSON parse failure is caught. *)
Definition fetch_json_or_null (net : network) (url : string) : completion jsval :=
  match fetch_result net url with
  | FetchReject m => Throw (TypeError m)
  | FetchBody None => Normal JNull
  | FetchBody (Some v) => Normal v
  end.

(** [Promise.all([a, b])]: the first rejection to settle wins. *)
Definition promise_all2 (a_first : bool) (a b : completion jsval) : completion (jsval * jsval) :=
  match a, b with
  | Normal x, Normal y => Normal (x, y)
  | Throw e, Normal _ => Throw e
  | Normal _, Throw e => Throw e
  | Throw e1, Throw e2 => Throw (if a_first then e1 else e2)
  end.

(** ** Cambridge audio enrichment (lines 137-145) *)

(** Write [pronunciation[0]] back into the entry object. *)
Definition set_pron0 (g p0 : jsval) : jsval :=
  match g with
  | JObj fs =>
      match assoc_lookup "pronunciation" fs with
      | Some (JArr (_ :: rest)) => JObj (set_field fs "pronunciation" (JArr (p0 :: rest)))
      | _ => g
      end
  | _ => g
  end.

Definition enrich (g cd : jsval) : completion jsval :=
  c <- js_and_then cd (prs <- js_get cd "pronunciation" ;;
                       js_and_then prs (len <- js_get prs "length" ;; Normal (JBool (js_gt len (JNum 0))))) ;;
  if negb (js_truthy c) then Normal g else
  prs <- js_get cd "pronunciation" ;;
  items <- js_array_receiver prs "cambridgeData.pronunciation" "find" ;;
  found <- cfind (fun p => u <- js_get p "url" ;; Normal (js_truthy u)) items ;;
  p0 <- js_idx prs 0 ;;
  let cp := js_or (default JUndefined found) p0 in
  if negb (js_truthy cp) then Normal g else
  gp <- js_get g "pronunciation" ;;
  gp0 <- js_idx gp 0 ;;
  cu <- js_get cp "url" ;;
  gp0' <- js_put gp0 "url" (js_or cu (JStr "")) ;;
  gpron <- js_get gp0' "pron" ;;
  cpron <- js_get cp "pron" ;;
  gp0'' <- (if negb (js_truthy gpron) && js_truthy cpron then js_put gp0' "pron" cpron else Normal gp0') ;;
  Normal (set_pron0 g gp0'').

(** ** The providers (lines 108-161) *)

Definition gemini_not_found : jserror := PlainError "Gemini AI definition not found or invalid format.".

Definition gemini_url (word : string) (lang : jsval) : string :=
  "http://localhost:3000/api/gemini/" +:+ encodeURIComponent word +:+
  (if js_truthy lang && negb (js_eq_str lang "none")
   then "?lang=" +:+ encodeURIComponent (js_to_string lang) else "").

Definition cambridge_url (word : string) : string :=
  "http://localhost:3000/api/dictionary/en/" +:+ encodeURIComponent word.

Definition dictionary_url (word : string) : string := "http://localhost:3000/api/dictionary/en/" +:+ word.

Definition mw_url (word : string) (key : jsval) : string :=
  "https://www.dictionaryapi.com/api/v3/references/collegiate/json/" +:+ word +:+ "?key=" +:+ js_to_string key.

(** Lines 116-117. *)
Definition is_phrase (word : string) : bool := (1 <? length (words word))%nat.

(** The request of a cache miss: the URLs fetched, in order, and the value
    the promise settles with; or the missing-key error of lines 150-153. *)
Inductive api_plan := MissingKey | Request (urls : list string) (result : completion jsval).

Definition api_request (source mwApiKey lang : jsval) (word : string) (net : network) : api_plan :=
  if js_eq_str source "gemini" then
    let gu := gemini_url word lang in
    if is_phrase word then
      Request [gu] (d <- fetch_json net gu ;; n <- GeminiAdapter.normalizeGeminiData d ;;
                    match n with Some v => Normal v | None => Throw gemini_not_found end)
    else
      let cu := cambridge_url word in
      Request [gu; cu]
        (both <- promise_all2 (gemini_settles_first net) (fetch_json net gu) (fetch_json_or_null net cu) ;;
         n <- GeminiAdapter.normalizeGeminiData both.1 ;;
         match n with None => Throw gemini_not_found | Some g => enrich g both.2 end)
  else if js_eq_str source "merriam-webster" then
    if negb (js_truthy mwApiKey) then MissingKey else
    let u := mw_url word mwApiKey in
    Request [u] (d <- fetch_json net u ;; n <- MwAdapter.normalizeMwData d ;; Normal (default JNull n))
  else
    let u := dictionary_url word in Request [u] (fetch_json net u).

(** ** [getDefinition] (lines 91-180) *)

Definition settings_keys : list string :=
  ["preferredSource"; "mwApiKey"; "targetLanguage"; "definitionScope"; "exampleCount"; "ttsEnabled"].

Definition not_found : jserror := PlainError "Definition not found or API returned invalid format.".

(** Lines 164-168: the check and the projection of the fetched entry. *)
Definition final_data (settings fullData : jsval) : completion jsval :=
  if negb (js_truthy fullData) then Throw not_found else
  w <- js_get fullData "word" ;;
  if negb (js_truthy w) then Throw not_found else
  Display.applyDisplayPreferences fullData settings.

(** Lines 163-175: store and answer, or answer the error. *)
Definition finish (st : gmap string jsval) (key : string) (settings tts : jsval) (r : completion jsval)
  : list effect * gmap string jsval :=
  match fullData <- r ;; final_data settings fullData with
  | Normal finalData => ([ESet key finalData; ERespond (RSuccess finalData tts)], <[key := finalData]> st)
  | Throw e => ([ERespond (RError (error_message e))], st)
  end.

Definition getDefinition (st : gmap string jsval) (word_v : jsval) (net : network) : completion outcome :=
  w <- js_string_receiver word_v "message.word" "toLowerCase" ;;
  let word := to_lower w in
  let settings := storage_get st settings_keys in
  ps <- js_get settings "preferredSource" ;;
  mwApiKey <- js_get settings "mwApiKey" ;;
  tl <- js_get settings "targetLanguage" ;;
  key <- Keys.display_cache_key settings word ;;
  tts <- js_get settings "ttsEnabled" ;;
  let ttsv := js_or tts (JBool false) in
  let pre := [EGet settings_keys; EGet [key]] in
  c <- js_get (storage_get st [key]) key ;;
  if js_truthy c then Normal (mkOutcome (pre ++ [ERespond (RSuccess c ttsv)]) st) else
  match api_request (js_or ps (JStr "cambridge")) mwApiKey (js_or tl (JStr "none")) word net with
  | MissingKey => Normal (mkOutcome (pre ++ [ERespond (RError "Merriam-Webster API key is not set.")]) st)
  | Request urls r =>
      let '(effs, st') := finish st key settings ttsv r in
      Normal (mkOutcome (pre ++ map EFetch urls ++ effs) st')
  end.

(** ** [translateSentence] (lines 182-230) *)

Definition translate_url (text lang : jsval) : string :=
  "http://localhost:3000/api/translate/" +:+ encodeURIComponent (js_to_string text) +:+
  "?lang=" +:+ encodeURIComponent (js_to_string lang).

(** Lines 212-218: [throw new Error(data.error)] when the proxy reports one. *)
Definition translation (net : network) (url : string) : completion jsval :=
  data <- fetch_json net url ;;
  err <- js_get data "error" ;;
  if js_truthy err then Throw (PlainError (js_to_string err)) else Normal data.

Definition translateSentence (st : gmap string jsval) (text : jsval) (net : network) : completion outcome :=
  let settings := storage_get st ["targetLanguage"; "ttsEnabled"] in
  tl <- js_get settings "targetLanguage" ;;
  tts <- js_get settings "ttsEnabled" ;;
  let ttsv := js_or tts (JBool false) in
  let pre := [EGet ["targetLanguage"; "ttsEnabled"]] in
  if negb (js_truthy tl) || js_eq_str tl "none" then
    Normal (mkOutcome (pre ++ [ERespond (RNoLanguage "Please select a target language in options setting to proceed")]) st)
  else
  let key := Keys.sentence_cache_key text tl in
  c <- js_get (storage_get st [key]) key ;;
  if js_truthy c then Normal (mkOutcome (pre ++ [EGet [key]; ERespond (RSuccess c ttsv)]) st) else
  let url := translate_url text tl in
  match translation net url with
  | Normal data =>
      Normal (mkOutcome (pre ++ [EGet [key]; EFetch url; ESet key data; ERespond (RSuccess data ttsv)])
                (<[key := data]> st))
  | Throw e => Normal (mkOutcome (pre ++ [EGet [key]; EFetch url; ERespond (RError (error_message e))]) st)
  end.

(** ** The listener (lines 90-231): [Some] when it returns [true]. *)

Definition onMessage (st : gmap string jsval) (message : jsval) (net : network) : completion (option outcome) :=
  ty <- js_get message "type" ;;
  if js_eq_str ty "getDefinition" then
    w <- js_get message "word" ;; o <- getDefinition st w net ;; Normal (Some o)
  else if js_eq_str ty "translateSentence" then
    t <- js_get message "text" ;; o <- translateSentence st t net ;; Normal (Some o)
  else Normal None.

(** ** Views of the storage *)

(** A stored value, [undefined] when absent. *)
Definition setting (st : gmap string jsval) (k : string) : jsval := default JUndefined (st !! k).

(** The cache key of a lookup, from the stored settings. *)
Definition lookup_key (st : gmap string jsval) (w : string) : string :=
  Keys.display_key (js_or (setting st "preferredSource") (JStr "cambridge")) (to_lower w)
    (setting st "definitionScope") (setting st "exampleCount")
    (js_or (setting st "targetLanguage") (JStr "none")).

Definition tts_of (st : gmap string jsval) : jsval := js_or (setting st "ttsEnabled") (JBool false).

(** The URLs a run fetches, in order. *)
Fixpoint fetches (effs : list effect) : list string :=
  match effs with
  | [] => []
  | EFetch u :: effs' => u :: fetches effs'
  | _ :: effs' => fetches effs'
  end.

Definition is_respond (e : effect) : bool := match e with ERespond _ => true | _ => false end.

(** The run answers once, as its last effect. *)
Definition responds_once (effs : list effect) : Prop :=
  exists pre r, effs = pre ++ [ERespond r] /\ Forall (fun e => is_respond e = false) pre.

(** ** The run of [getDefinition] on a string word

    With the reads of the settings object done: the closed form the
    theorems below reason on. *)
Definition getDefinition_run (st : gmap string jsval) (w : string) (net : network) : outcome :=
  let key := lookup_key st w in
  let pre := [EGet settings_keys; EGet [key]] in
  if js_truthy (setting st key) then mkOutcome (pre ++ [ERespond (RSuccess (setting st key) (tts_of st))]) st
  else match api_request (js_or (setting st "preferredSource") (JStr "cambridge")) (setting st "mwApiKey")
               (js_or (setting st "targetLanguage") (JStr "none")) (to_lower w) net with
       | MissingKey => mkOutcome (pre ++ [ERespond (RError "Merriam-Webster API key is not set.")]) st
       | Request urls r =>
           let '(effs, st') := finish st key (storage_get st settings_keys) (tts_of st) r in
           mkOutcome (pre ++ map EFetch urls ++ effs) st'
       end.

(** The run of [translateSentence], with the reads of the settings done. *)
Definition translate_run (st : gmap string jsval) (text : jsval) (net : network) : outcome :=
  let tl := setting st "targetLanguage" in
  let pre := [EGet ["targetLanguage"; "ttsEnabled"]] in
  if negb (js_truthy tl) || js_eq_str tl "none" then
    mkOutcome (pre ++ [ERespond (RNoLanguage "Please select a target language in options setting to proceed")]) st
  else
  let key := Keys.sentence_cache_key text tl in
  if js_truthy (setting st key) then mkOutcome (pre ++ [EGet [key]; ERespond (RSuccess (setting st key) (tts_of st))]) st
  else
  let url := translate_url text tl in
  match translation net url with
  | Normal data =>
      mkOutcome (pre ++ [EGet [key]; EFetch url; ESet key data; ERespond (RSuccess data (tts_of st))])
        (<[key := data]> st)
  | Throw e => mkOutcome (pre ++ [EGet [key]; EFetch url; ERespond (RError (error_message e))]) st
  end.

(** ** Sample stores and networks *)

(** Gemini as provider, the default projection stored explicitly. *)
Definition gemini_store : gmap string jsval :=
  <["preferredSource" := JStr "gemini"]> (<["definitionScope" := JStr "relevant"]>
    (<["exampleCount" := JNum 1]> ∅)).

Definition mw_store_no_key : gmap string jsval := <["preferredSource" := JStr "merriam-webster"]> ∅.

(** The Gemini endpoint answers [payload]; every other URL [other]. *)
Definition gemini_net (payload : jsval) (other : fetch_outcome) : network :=
  mkNetwork (fun u => if String.prefix "http://localhost:3000/api/gemini/" u
                      then FetchBody (Some payload) else other) true.

(** Gemini answers the "run" payload of the spec; every other request is
    rejected by the network. *)
Definition offline_cambridge_net : network :=
  gemini_net (GeminiAdapter.gpayload_js GeminiAdapter.run_payload) (FetchReject "Failed to fetch").

(** [gemini_store] with "run" already cached. *)
Definition cached_store : gmap string jsval :=
  <["qdp_gemini_run_relevant_1_none" := JObj [("word", JStr "run")]]> gemini_store.

Definition translate_store : gmap string jsval := <["targetLanguage" := JStr "vi"]> ∅.

(** The translation proxy answers an object. *)
Definition translate_net : network :=
  gemini_net JNull (FetchBody (Some (JObj [("translation", JStr "xin chao")]))).

(** ** Lemmas *)

Lemma storage_get_lookup st keys k :
  assoc_lookup k (storage_fields st keys) =
  if bool_decide (k ∈ keys) then st !! k else None.
Proof.
  induction keys as [|a keys IH]; simpl; [done|].
  destruct (String.eqb_spec k a) as [->|Hne].
  - destruct (st !! a) as [v|] eqn:Ha; simpl.
    + by rewrite String.eqb_refl, bool_decide_eq_true_2 by set_solver.
    + rewrite IH. by destruct (bool_decide _), (bool_decide _).
  - assert (Hk : bool_decide (k ∈ a :: keys) = bool_decide (k ∈ keys))
      by (apply bool_decide_ext; set_solver).
    destruct (st !! a) as [v|]; simpl; [rewrite (proj2 (String.eqb_neq k a) Hne)|]; by rewrite IH, Hk.
Qed.

Lemma storage_get_get st keys k : k ∈ keys -> js_get (storage_get st keys) k = Normal (setting st k).
Proof.
  intros Hk. unfold storage_get, setting. cbn [js_get].
  rewrite storage_get_lookup, bool_decide_eq_true_2 by done. done.
Qed.

Lemma settings_get st k : k ∈ settings_keys -> js_get (storage_get st settings_keys) k = Normal (setting st k).
Proof. apply storage_get_get. Qed.

Lemma getDefinition_eq st w net : getDefinition st (JStr w) net = Normal (getDefinition_run st w net).
Proof.
  unfold getDefinition, Keys.display_cache_key. cbn [js_string_receiver cbind].
  rewrite !settings_get by (cbn; set_solver). cbn [cbind].
  change (Keys.display_key _ (to_lower w) _ _ _) with (lookup_key st w).
  rewrite (storage_get_get st [lookup_key st w] (lookup_key st w)) by set_solver.
  rewrite cbind_normal. unfold getDefinition_run.
  destruct (js_truthy _); [reflexivity|]. destruct (api_request _ _ _ _ _); [reflexivity|].
  by destruct (finish _ _ _ _ _).
Qed.

Lemma translateSentence_eq st text net : translateSentence st text net = Normal (translate_run st text net).
Proof.
  unfold translateSentence, translate_run. rewrite !storage_get_get by set_solver. cbn [cbind].
  destruct (negb _ || _); [done|]. rewrite storage_get_get by set_solver. cbn [cbind].
  destruct (js_truthy _); [done|]. by destruct (translation _ _).
Qed.

Lemma finish_cases st key settings tts r :
  (exists m, finish st key settings tts r = ([ERespond (RError m)], st)) \/
  (exists fullData v, r = Normal fullData /\ final_data settings fullData = Normal v /\
     finish st key settings tts r = ([ESet key v; ERespond (RSuccess v tts)], <[key := v]> st)).
Proof.
  unfold finish. destruct r as [fullData|e]; cbn [cbind]; [|left; eauto].
  destruct (final_data settings fullData) as [v|e] eqn:Hf; [right; eauto|left; eauto].
Qed.

Lemma fetches_app e1 e2 : fetches (e1 ++ e2) = fetches e1 ++ fetches e2.
Proof. induction e1 as [|[] e1 IH]; simpl; rewrite ?IH; done. Qed.

Lemma fetches_map urls : fetches (map EFetch urls) = urls.
Proof. induction urls as [|u urls IH]; simpl; by rewrite ?IH. Qed.

Lemma finish_fetches st key settings tts r : fetches (finish st key settings tts r).1 = [].
Proof. by destruct (finish_cases st key settings tts r) as [[m ->]|(? & ? & _ & _ & ->)]. Qed.

Lemma responds_once_one r : responds_once [ERespond r].
Proof. by exists [], r. Qed.

Lemma responds_once_cons e effs : is_respond e = false -> responds_once effs -> responds_once (e :: effs).
Proof. intros He (pre & r & -> & Hpre). exists (e :: pre), r. split; [done|]. by constructor. Qed.

Lemma responds_once_app pre effs :
  Forall (fun e => is_respond e = false) pre -> responds_once effs -> responds_once (pre ++ effs).
Proof.
  intros Hpre (pre' & r & -> & Hpre'). exists (pre ++ pre'), r.
  rewrite app_assoc. split; [done|]. by apply Forall_app.
Qed.

Lemma no_respond_fetches urls : Forall (fun e => is_respond e = false) (map EFetch urls).
Proof. induction urls; by constructor. Qed.

Ltac solve_responds_once :=
  repeat first [ apply responds_once_one | apply responds_once_cons; [reflexivity|]
               | apply responds_once_app; [first [apply no_respond_fetches | repeat constructor]|] ].

Lemma responds_once_finish st key settings tts r : responds_once (finish st key settings tts r).1.
Proof.
  destruct (finish_cases st key settings tts r) as [[m ->]|(? & v & _ & _ & ->)]; simpl;
    solve_responds_once.
Qed.

Lemma getDefinition_run_responds_once st w net : responds_once (effects (getDefinition_run st w net)).
Proof.
  unfold getDefinition_run. destruct (js_truthy _); cbn [effects]; [solve_responds_once|].
  destruct (api_request _ _ _ _ _) as [|urls r]; cbn [effects]; [solve_responds_once|].
  pose proof (responds_once_finish st (lookup_key st w) (storage_get st settings_keys) (tts_of st) r) as H.
  destruct (finish _ _ _ _ _) as [effs st']. cbn [effects]. solve_responds_once. exact H.
Qed.

Lemma translateSentence_responds_once st text net o :
  translateSentence st text net = Normal o -> responds_once (effects o).
Proof.
  unfold translateSentence. rewrite !storage_get_get by set_solver. cbn [cbind].
  destruct (negb _ || _); [intros [= <-]; solve_responds_once|].
  rewrite storage_get_get by set_solver. cbn [cbind].
  destruct (js_truthy _); [intros [= <-]; solve_responds_once|].
  destruct (translation _ _); intros [= <-]; solve_responds_once.
Qed.

Lemma getDefinition_run_fetches st w net :
  fetches (effects (getDefinition_run st w net)) =
  if js_truthy (setting st (lookup_key st w)) then [] else
  match api_request (js_or (setting st "preferredSource") (JStr "cambridge")) (setting st "mwApiKey")
          (js_or (setting st "targetLanguage") (JStr "none")) (to_lower w) net with
  | MissingKey => []
  | Request urls _ => urls
  end.
Proof.
  unfold getDefinition_run. destruct (js_truthy _); [done|].
  destruct (api_request _ _ _ _ _) as [|urls r]; [done|].
  pose proof (finish_fetches st (lookup_key st w) (storage_get st settings_keys) (tts_of st) r) as H.
  destruct (finish _ _ _ _ _). cbn [effects fst] in *. by rewrite !fetches_app, fetches_map, H, app_nil_r.
Qed.

Lemma final_data_normal settings fullData v :
  final_data settings fullData = Normal v -> Display.applyDisplayPreferences fullData settings = Normal v.
Proof.
  unfold final_data. destruct (js_truthy fullData); [|done]. cbn [negb].
  destruct (js_get fullData "word"); [|done]. cbn [cbind]. by destruct (js_truthy _).
Qed.

Lemma lookup_key_not_setting st w : lookup_key st w ∉ settings_keys.
Proof.
  unfold lookup_key, Keys.display_key. rewrite !string_app_cons, string_app_empty.
  unfold settings_keys. rewrite !elem_of_cons, elem_of_nil. intuition discriminate.
Qed.

(** C6. Whenever the listener handles a message (it returns [true] and
    does not throw), it answers exactly once, as its last effect: every
    path of [getDefinition] and [translateSentence] ends in one
    [sendResponse]. *)
Theorem onMessage_responds_once st msg net o :
  onMessage st msg net = Normal (Some o) -> responds_once (effects o).
Proof.
  unfold onMessage. intros H. inv_cbind.
  destruct (js_eq_str _ "getDefinition"); [|destruct (js_eq_str _ "translateSentence")].
  - inv_cbind. destruct x0; try discriminate. rewrite getDefinition_eq in *. inv_cbind.
    apply getDefinition_run_responds_once.
  - inv_cbind. by eapply translateSentence_responds_once.
  - discriminate.
Qed.

(** C25. A cache hit answers the stored value without any fetch and
    leaves the storage as it was (lines 100-106). *)
Theorem getDefinition_cache_hit st w net :
  js_truthy (setting st (lookup_key st w)) = true ->
  getDefinition st (JStr w) net =
  Normal (mkOutcome [EGet settings_keys; EGet [lookup_key st w];
                     ERespond (RSuccess (setting st (lookup_key st w)) (tts_of st))] st).
Proof. intros Hc. rewrite getDefinition_eq. unfold getDefinition_run. by rewrite Hc. Qed.

(** C26. Merriam-Webster without an API key, on a cache miss: no request
    is made, the answer is the error of line 152, the storage is unchanged. *)
Theorem getDefinition_missing_key st w net :
  setting st "preferredSource" = JStr "merriam-webster" ->
  js_truthy (setting st "mwApiKey") = false ->
  js_truthy (setting st (lookup_key st w)) = false ->
  getDefinition st (JStr w) net =
  Normal (mkOutcome [EGet settings_keys; EGet [lookup_key st w];
                     ERespond (RError "Merriam-Webster API key is not set.")] st).
Proof.
  intros Hs Hk Hc. rewrite getDefinition_eq. unfold getDefinition_run, api_request.
  rewrite Hc, Hs, Hk. reflexivity.
Qed.

(** C27. With Gemini as provider, a phrase (more than one word after
    lower-casing) is looked up with the Gemini request alone: no Cambridge
    enrichment fetch (lines 116-130). *)
Theorem getDefinition_phrase_fetches_gemini_only st w net o :
  setting st "preferredSource" = JStr "gemini" -> is_phrase (to_lower w) = true ->
  js_truthy (setting st (lookup_key st w)) = false ->
  getDefinition st (JStr w) net = Normal o ->
  fetches (effects o) = [gemini_url (to_lower w) (js_or (setting st "targetLanguage") (JStr "none"))].
Proof.
  intros Hs Hp Hc. rewrite getDefinition_eq. intros [= <-].
  rewrite getDefinition_run_fetches, Hc, Hs. unfold api_request. simpl js_or. simpl js_eq_str.
  cbn iota beta. by rewrite Hp.
Qed.

(** C28. With Gemini as provider, a single word is looked up with the
    Gemini request and the Cambridge request, in this order (lines 131-134). *)
Theorem getDefinition_word_fetches_both st w net o :
  setting st "preferredSource" = JStr "gemini" -> is_phrase (to_lower w) = false ->
  js_truthy (setting st (lookup_key st w)) = false ->
  getDefinition st (JStr w) net = Normal o ->
  fetches (effects o) = [gemini_url (to_lower w) (js_or (setting st "targetLanguage") (JStr "none"));
                         cambridge_url (to_lower w)].
Proof.
  intros Hs Hp Hc. rewrite getDefinition_eq. intros [= <-].
  rewrite getDefinition_run_fetches, Hc, Hs. unfold api_request. simpl js_or. simpl js_eq_str.
  cbn iota beta. by rewrite Hp.
Qed.

Lemma getDefinition_run_storage st w net :
  storage_after (getDefinition_run st w net) = st \/
  exists fullData v pre,
    Display.applyDisplayPreferences fullData (storage_get st settings_keys) = Normal v /\
    storage_after (getDefinition_run st w net) = <[lookup_key st w := v]> st /\
    effects (getDefinition_run st w net) = pre ++ [ESet (lookup_key st w) v; ERespond (RSuccess v (tts_of st))].
Proof.
  unfold getDefinition_run.
  destruct (js_truthy _); [by left|]. destruct (api_request _ _ _ _ _) as [|urls r]; [by left|].
  destruct (finish_cases st (lookup_key st w) (storage_get st settings_keys) (tts_of st) r)
    as [[m ->]|(fullData & v & _ & Hf & ->)]; [by left|].
  right. exists fullData, v, ([EGet settings_keys; EGet [lookup_key st w]] ++ map EFetch urls).
  split; [by apply final_data_normal|]. split; [done|]. cbn [effects]. by rewrite <- app_assoc.
Qed.

Lemma getDefinition_run_keeps_settings st w net k :
  k ∈ settings_keys -> storage_after (getDefinition_run st w net) !! k = st !! k.
Proof.
  intros Hk. destruct (getDefinition_run_storage st w net) as [->|(? & v & ? & _ & -> & _)]; [done|].
  apply lookup_insert_ne. intros Heq. apply (lookup_key_not_setting st w). by rewrite Heq.
Qed.

Lemma lookup_key_ext st st' w :
  (forall k, k ∈ settings_keys -> st' !! k = st !! k) ->
  lookup_key st' w = lookup_key st w /\ tts_of st' = tts_of st.
Proof.
  intros H. unfold lookup_key, tts_of, setting.
  rewrite !H by (unfold settings_keys; set_solver). done.
Qed.

Lemma applyDisplayPreferences_truthy d settings v :
  Display.applyDisplayPreferences d settings = Normal v -> js_truthy v = true.
Proof. unfold Display.applyDisplayPreferences. intros H. inv_cbind. done. Qed.


Lemma respond_in_app r pre l :
  Forall (fun e => is_respond e = false) pre -> ERespond r ∈ pre ++ l -> ERespond r ∈ l.
Proof. intros Hpre [H|H]%elem_of_app; [|done]. rewrite Forall_forall in Hpre. by apply Hpre in H. Qed.

(** What a successful answer of a run says about the storage after it. *)
Lemma getDefinition_run_success st w net v t :
  ERespond (RSuccess v t) ∈ effects (getDefinition_run st w net) ->
  t = tts_of st /\ js_truthy v = true /\
  setting (storage_after (getDefinition_run st w net)) (lookup_key st w) = v.
Proof.
  unfold getDefinition_run. destruct (js_truthy _) eqn:Hc.
  { cbn [effects storage_after]. intros H. apply respond_in_app in H; [|by repeat constructor].
    by apply list_elem_of_singleton in H as [= -> ->]. }
  destruct (api_request _ _ _ _ _) as [|urls r].
  { cbn [effects]. intros H. apply respond_in_app in H; [|by repeat constructor].
    by apply list_elem_of_singleton in H. }
  destruct (finish_cases st (lookup_key st w) (storage_get st settings_keys) (tts_of st) r)
    as [[m Hfin]|(fullData & v' & _ & Hf & Hfin)]; rewrite Hfin; cbn [effects storage_after]; intros H;
    rewrite app_assoc in H; apply respond_in_app in H;
    try (apply Forall_app; split; [by repeat constructor|apply no_respond_fetches]).
  { by apply list_elem_of_singleton in H. }
  apply (respond_in_app _ [_]) in H; [|by repeat constructor].
  apply list_elem_of_singleton in H as [= -> ->].
  unfold setting. rewrite lookup_insert_eq. split_and!; [done| |reflexivity].
  by eapply applyDisplayPreferences_truthy, final_data_normal.
Qed.

Lemma sentence_key_not_setting text tl :
  Keys.sentence_cache_key text tl ∉ ["targetLanguage"; "ttsEnabled"].
Proof.
  unfold Keys.sentence_cache_key. rewrite !string_app_cons, string_app_empty.
  rewrite !elem_of_cons, elem_of_nil. intuition discriminate.
Qed.

(** What a successful answer of a translation says about the storage
    after it: the target language is unchanged and the sentence key holds
    the answer. *)
Lemma translate_run_success st text net d t :
  ERespond (RSuccess d t) ∈ effects (translate_run st text net) ->
  t = tts_of st /\
  (forall k, k ∈ ["targetLanguage"; "ttsEnabled"] -> storage_after (translate_run st text net) !! k = st !! k) /\
  setting (storage_after (translate_run st text net))
    (Keys.sentence_cache_key text (setting st "targetLanguage")) = d.
Proof.
  unfold translate_run. destruct (negb _ || _).
  { cbn [effects]. intros H. apply respond_in_app in H; [|by repeat constructor].
    by apply list_elem_of_singleton in H. }
  destruct (js_truthy _).
  { cbn [effects storage_after]. intros H. apply respond_in_app in H; [|by repeat constructor].
    apply (respond_in_app _ [_]) in H; [|by repeat constructor].
    by apply list_elem_of_singleton in H as [= -> ->]. }
  destruct (translation _ _); cbn [effects storage_after]; intros H;
    apply respond_in_app in H; try by repeat constructor.
  - apply (respond_in_app _ [_; _; _]) in H; [|by repeat constructor].
    apply list_elem_of_singleton in H as [= -> ->]. split_and!; [done| |].
    + intros k Hk. apply lookup_insert_ne. intros Heq.
      apply (sentence_key_not_setting text (setting st "targetLanguage")). by rewrite Heq.
    + unfold setting. by rewrite lookup_insert_eq.
  - apply (respond_in_app _ [_; _]) in H; [|by repeat constructor].
    by apply list_elem_of_singleton in H.
Qed.

(** C5. Cache coherence: a lookup either leaves the storage unchanged,
    or writes, under the lookup's key, a value in the image of the display
    projection under the stored settings (the projection of some entry
    value), and answers exactly that value (lines 163-172). *)
Theorem getDefinition_cache_coherent st w net o :
  getDefinition st (JStr w) net = Normal o ->
  storage_after o = st \/
  exists fullData v pre,
    Display.applyDisplayPreferences fullData (storage_get st settings_keys) = Normal v /\
    storage_after o = <[lookup_key st w := v]> st /\
    effects o = pre ++ [ESet (lookup_key st w) v; ERespond (RSuccess v (tts_of st))].
Proof. rewrite getDefinition_eq. intros [= <-]. apply getDefinition_run_storage. Qed.

Lemma headword_nonempty p hw : GeminiAdapter.headword p = Some hw -> hw <> "".
Proof.
  unfold GeminiAdapter.headword, GeminiAdapter.nonempty.
  destruct (GeminiAdapter.gp_word p) as [s|]; [destruct (String.eqb_spec s "")|];
    (destruct (GeminiAdapter.gp_phrase p) as [s'|]; [destruct (String.eqb_spec s' "")|]);
    intros [= <-] || discriminate; congruence.
Qed.

Lemma final_data_entry settings e :
  en_word e <> "" -> final_data settings (to_js e) = Display.applyDisplayPreferences (to_js e) settings.
Proof.
  intros Hw. unfold final_data. change (to_js e) with (JObj (entry_fields e)). cbn [js_truthy negb].
  rewrite js_get_normal_obj. cbn [entry_fields assoc_lookup String.eqb Ascii.eqb Bool.eqb].
  destruct (en_word e) as [|c w]; [done|]. reflexivity.
Qed.

(** C7. Gemini as provider, a single word: when the Cambridge enrichment
    request is rejected by the network, the whole lookup fails with that
    rejection, even though Gemini answered, whatever it answered: the
    [.catch] of line 133 covers the JSON parse only, and [Promise.all]
    rejects (lines 131-145). *)
Theorem getDefinition_cambridge_reject_fails st w net g m :
  setting st "preferredSource" = JStr "gemini" -> is_phrase (to_lower w) = false ->
  js_truthy (setting st (lookup_key st w)) = false ->
  fetch_result net (gemini_url (to_lower w) (js_or (setting st "targetLanguage") (JStr "none"))) =
    FetchBody (Some g) ->
  fetch_result net (cambridge_url (to_lower w)) = FetchReject m ->
  getDefinition st (JStr w) net =
  Normal (mkOutcome [EGet settings_keys; EGet [lookup_key st w];
                     EFetch (gemini_url (to_lower w) (js_or (setting st "targetLanguage") (JStr "none")));
                     EFetch (cambridge_url (to_lower w)); ERespond (RError m)] st).
Proof.
  intros Hs Hp Hc Hg Hm. rewrite getDefinition_eq. f_equal. unfold getDefinition_run, api_request.
  rewrite Hc, Hs. simpl js_or. simpl js_eq_str. cbn iota beta. rewrite Hp.
  unfold finish, fetch_json, fetch_json_or_null. rewrite Hg, Hm. reflexivity.
Qed.

(** C4. End to end, Gemini as provider and a phrase: on a cache miss,
    when the stored settings are valid preferences [pr] and Gemini answers
    a payload of the documented shape, the listener fetches it, stores
    under the lookup's key the spec's projection of the spec's adapter
    output, and answers that same value. *)
Theorem getDefinition_gemini_phrase st w net p hw pr :
  setting st "preferredSource" = JStr "gemini" -> is_phrase (to_lower w) = true ->
  js_truthy (setting st (lookup_key st w)) = false ->
  Display.prefs_of (storage_get st settings_keys) = Some pr ->
  fetch_result net (gemini_url (to_lower w) (js_or (setting st "targetLanguage") (JStr "none"))) =
    FetchBody (Some (GeminiAdapter.gpayload_js p)) ->
  GeminiAdapter.headword p = Some hw -> GeminiAdapter.gp_forms p <> [] ->
  Forall (fun f => GeminiAdapter.gf_defs f <> []) (GeminiAdapter.gp_forms p) ->
  getDefinition st (JStr w) net =
  Normal (mkOutcome [EGet settings_keys; EGet [lookup_key st w];
                     EFetch (gemini_url (to_lower w) (js_or (setting st "targetLanguage") (JStr "none")));
                     ESet (lookup_key st w) (to_js (Display.project pr (GeminiAdapter.adapt_gemini hw p)));
                     ERespond (RSuccess (to_js (Display.project pr (GeminiAdapter.adapt_gemini hw p))) (tts_of st))]
                    (<[lookup_key st w := to_js (Display.project pr (GeminiAdapter.adapt_gemini hw p))]> st)).
Proof.
  intros Hs Hp Hc Hpr Hg Hw Hne Hdefs. rewrite getDefinition_eq. f_equal. unfold getDefinition_run, api_request.
  rewrite Hc, Hs. simpl js_or. simpl js_eq_str. cbn iota beta. rewrite Hp.
  unfold finish, fetch_json. rewrite Hg. cbn [cbind].
  rewrite (GeminiAdapter.normalizeGeminiData_adapt p hw Hw Hne Hdefs). cbn [cbind].
  rewrite final_data_entry by (apply (headword_nonempty p hw Hw)).
  by rewrite (Display.applyDisplayPreferences_project _ pr _ Hpr).
Qed.

(** C13. A successful answer is served again from the cache: after a
    lookup that answered [v], the same lookup on the storage it left, under
    any network, fetches nothing and answers [v] again (the stored value is
    an object, hence truthy, and the settings, hence the key, are
    unchanged). *)
Theorem getDefinition_answer_cached st w net net' o v t :
  getDefinition st (JStr w) net = Normal o -> ERespond (RSuccess v t) ∈ effects o ->
  getDefinition (storage_after o) (JStr w) net' =
  Normal (mkOutcome [EGet settings_keys; EGet [lookup_key st w]; ERespond (RSuccess v t)] (storage_after o)).
Proof.
  rewrite getDefinition_eq. intros [= <-] Hin.
  destruct (getDefinition_run_success st w net v t Hin) as (-> & Htr & Hset).
  destruct (lookup_key_ext st (storage_after (getDefinition_run st w net)) w) as [Hk Ht];
    [apply getDefinition_run_keeps_settings|].
  rewrite getDefinition_eq. unfold getDefinition_run at 1. rewrite Hk, Hset, Htr, Ht. done.
Qed.

(** C29. Without a target language (none stored, or ["none"]),
    [translateSentence] answers the [noLanguage] response of lines 189-192
    and fetches and stores nothing. *)
Theorem translateSentence_no_language st text net :
  js_truthy (setting st "targetLanguage") = false \/ setting st "targetLanguage" = JStr "none" ->
  translateSentence st text net =
  Normal (mkOutcome [EGet ["targetLanguage"; "ttsEnabled"];
                     ERespond (RNoLanguage "Please select a target language in options setting to proceed")] st).
Proof. rewrite translateSentence_eq. unfold translate_run. by intros [-> | ->]. Qed.

(** C30. A successful translation is served again from the cache when it
    is truthy: the same request on the storage it left, under any network,
    fetches nothing and answers the same value.  A falsy translation (a
    proxy answering [0] or [""]) is stored but fetched again, since the
    check of line 202 is [if (cachedTranslation)]. *)
Theorem translateSentence_answer_cached st text net net' o d t :
  translateSentence st text net = Normal o -> ERespond (RSuccess d t) ∈ effects o -> js_truthy d = true ->
  translateSentence (storage_after o) text net' =
  Normal (mkOutcome [EGet ["targetLanguage"; "ttsEnabled"];
                     EGet [Keys.sentence_cache_key text (setting st "targetLanguage")];
                     ERespond (RSuccess d t)] (storage_after o)).
Proof.
  rewrite translateSentence_eq. intros [= <-] Hin Hd.
  destruct (translate_run_success st text net d t Hin) as (-> & Hkeep & Hset).
  assert (Htl : setting (storage_after (translate_run st text net)) "targetLanguage" = setting st "targetLanguage")
    by (unfold setting; rewrite Hkeep by set_solver; done).
  assert (Htts : tts_of (storage_after (translate_run st text net)) = tts_of st)
    by (unfold tts_of, setting; rewrite Hkeep by set_solver; done).
  rewrite translateSentence_eq. unfold translate_run at 1. rewrite Htl, Hset, Hd, Htts.
  destruct (negb _ || _) eqn:Hno; [|done].
  exfalso. revert Hin. unfold translate_run. rewrite Hno. cbn [effects]. intros H.
  apply respond_in_app in H; [|by repeat constructor]. by apply list_elem_of_singleton in H.
Qed.

(** ** Witnesses *)

Lemma onMessage_responds_once_witness :
  exists o, onMessage gemini_store (JObj [("type", JStr "getDefinition"); ("word", JStr "Run")])
              offline_cambridge_net = Normal (Some o) /\ responds_once (effects o).
Proof.
  assert (H : onMessage gemini_store (JObj [("type", JStr "getDefinition"); ("word", JStr "Run")])
                offline_cambridge_net = Normal (Some (getDefinition_run gemini_store "Run" offline_cambridge_net)))
    by (vm_compute; reflexivity).
  exists (getDefinition_run gemini_store "Run" offline_cambridge_net).
  split; [exact H|exact (onMessage_responds_once _ _ _ _ H)].
Defined.

Lemma getDefinition_cache_hit_witness :
  getDefinition cached_store (JStr "run") offline_cambridge_net =
  Normal (mkOutcome [EGet settings_keys; EGet [lookup_key cached_store "run"];
                     ERespond (RSuccess (setting cached_store (lookup_key cached_store "run")) (tts_of cached_store))]
                    cached_store).
Proof. apply getDefinition_cache_hit. vm_compute. reflexivity. Defined.

Lemma getDefinition_missing_key_witness :
  getDefinition mw_store_no_key (JStr "run") offline_cambridge_net =
  Normal (mkOutcome [EGet settings_keys; EGet [lookup_key mw_store_no_key "run"];
                     ERespond (RError "Merriam-Webster API key is not set.")] mw_store_no_key).
Proof. apply getDefinition_missing_key; vm_compute; reflexivity. Defined.

Lemma getDefinition_phrase_fetches_gemini_only_witness :
  fetches (effects (getDefinition_run gemini_store "pick up" offline_cambridge_net)) =
  [gemini_url (to_lower "pick up") (js_or (setting gemini_store "targetLanguage") (JStr "none"))].
Proof.
  apply (getDefinition_phrase_fetches_gemini_only gemini_store "pick up" offline_cambridge_net);
    [vm_compute; reflexivity..|apply getDefinition_eq].
Defined.

(** " run " is one word once split, so Gemini and Cambridge are both asked. *)
Lemma getDefinition_word_fetches_both_witness :
  fetches (effects (getDefinition_run gemini_store " run " offline_cambridge_net)) =
  [gemini_url (to_lower " run ") (js_or (setting gemini_store "targetLanguage") (JStr "none"));
   cambridge_url (to_lower " run ")].
Proof.
  apply (getDefinition_word_fetches_both gemini_store " run " offline_cambridge_net);
    [vm_compute; reflexivity..|apply getDefinition_eq].
Defined.

Lemma getDefinition_cache_coherent_witness :
  storage_after (getDefinition_run gemini_store "pick up" offline_cambridge_net) = gemini_store \/
  exists fullData v pre,
    Display.applyDisplayPreferences fullData (storage_get gemini_store settings_keys) = Normal v /\
    storage_after (getDefinition_run gemini_store "pick up" offline_cambridge_net) =
      <[lookup_key gemini_store "pick up" := v]> gemini_store /\
    effects (getDefinition_run gemini_store "pick up" offline_cambridge_net) =
      pre ++ [ESet (lookup_key gemini_store "pick up") v; ERespond (RSuccess v (tts_of gemini_store))].
Proof. apply getDefinition_cache_coherent with (net := offline_cambridge_net). apply getDefinition_eq. Defined.

Lemma getDefinition_cambridge_reject_fails_witness :
  getDefinition gemini_store (JStr "run") offline_cambridge_net =
  Normal (mkOutcome [EGet settings_keys; EGet [lookup_key gemini_store "run"];
                     EFetch (gemini_url (to_lower "run") (js_or (setting gemini_store "targetLanguage") (JStr "none")));
                     EFetch (cambridge_url (to_lower "run")); ERespond (RError "Failed to fetch")] gemini_store).
Proof.
  apply (getDefinition_cambridge_reject_fails _ _ _ (GeminiAdapter.gpayload_js GeminiAdapter.run_payload));
    vm_compute; reflexivity.
Defined.

Lemma getDefinition_gemini_phrase_witness :
  getDefinition gemini_store (JStr "pick up") offline_cambridge_net =
  Normal (mkOutcome
    [EGet settings_keys; EGet [lookup_key gemini_store "pick up"];
     EFetch (gemini_url (to_lower "pick up") (js_or (setting gemini_store "targetLanguage") (JStr "none")));
     ESet (lookup_key gemini_store "pick up")
       (to_js (Display.project (Display.mkPrefs Display.Relevant 1) (GeminiAdapter.adapt_gemini "run" GeminiAdapter.run_payload)));
     ERespond (RSuccess (to_js (Display.project (Display.mkPrefs Display.Relevant 1)
                                 (GeminiAdapter.adapt_gemini "run" GeminiAdapter.run_payload))) (tts_of gemini_store))]
    (<[lookup_key gemini_store "pick up" :=
        to_js (Display.project (Display.mkPrefs Display.Relevant 1) (GeminiAdapter.adapt_gemini "run" GeminiAdapter.run_payload))]>
       gemini_store)).
Proof.
  apply getDefinition_gemini_phrase; try (vm_compute; reflexivity).
  - discriminate.
  - repeat constructor. discriminate.
Defined.

Lemma getDefinition_answer_cached_witness :
  getDefinition (storage_after (getDefinition_run gemini_store "pick up" offline_cambridge_net)) (JStr "pick up")
    translate_net =
  Normal (mkOutcome
    [EGet settings_keys; EGet [lookup_key gemini_store "pick up"];
     ERespond (RSuccess (to_js (Display.project (Display.mkPrefs Display.Relevant 1)
                                 (GeminiAdapter.adapt_gemini "run" GeminiAdapter.run_payload))) (tts_of gemini_store))]
    (storage_after (getDefinition_run gemini_store "pick up" offline_cambridge_net))).
Proof.
  apply (getDefinition_answer_cached gemini_store "pick up" offline_cambridge_net); [apply getDefinition_eq|].
  apply list_elem_of_In. vm_compute. right; right; right; right; left; reflexivity.
Defined.

Lemma translateSentence_no_language_witness :
  translateSentence gemini_store (JStr "Hello there") translate_net =
  Normal (mkOutcome [EGet ["targetLanguage"; "ttsEnabled"];
                     ERespond (RNoLanguage "Please select a target language in options setting to proceed")] gemini_store).
Proof. apply translateSentence_no_language. left. vm_compute. reflexivity. Defined.

Lemma translateSentence_answer_cached_witness :
  translateSentence (storage_after (translate_run translate_store (JStr "Hello there") translate_net))
    (JStr "Hello there") offline_cambridge_net =
  Normal (mkOutcome [EGet ["targetLanguage"; "ttsEnabled"];
                     EGet [Keys.sentence_cache_key (JStr "Hello there") (setting translate_store "targetLanguage")];
                     ERespond (RSuccess (JObj [("translation", JStr "xin chao")]) (tts_of translate_store))]
    (storage_after (translate_run translate_store (JStr "Hello there") translate_net))).
Proof.
  apply (translateSentence_answer_cached translate_store _ translate_net); [apply translateSentence_eq| |reflexivity].
  apply list_elem_of_In. vm_compute. right; right; right; right; left; reflexivity.
Defined.

End Listener.
