(* ===== verification/Interleaving.v ===== *)
(** * Concurrent requests: the callbacks of the listener, interleaved

    [Handler] runs each request atomically.  In the extension a request is
    a chain of callbacks, and the callbacks of several requests, and the
    options page's writes to the settings, interleave on the one
    [chrome.storage.local]:
    - [getDefinition]: the listener (line 92) issues [storage.get] of the
      settings; its callback (lines 94-98) derives the key and issues
      [storage.get] of the key; that callback (lines 100-161) answers a
      hit or the missing-key error, or starts the fetches; the promise
      settles (lines 163-175) by storing and answering, or answering the
      error.
    - [translateSentence]: the callback of line 185 answers [noLanguage] or
      derives the key and issues [storage.get]; its callback (lines
      200-211) answers a hit or fetches; the promise settles (lines
      212-225).

    [Interleaving] models a request as its phase ([dphase], [tphase]), the
    settings it read ([snap], the storage at the time its first callback
    ran, of which only the settings keys are read), and the world as the
    storage with the list of requests.  [step] runs one callback of one
    request against the current storage, starts a request, or writes a
    setting; the outcome of the fetches is chosen when the promise
    settles.  The theorems: every reachable world keeps the cache coherent,
    every answered definition is a projection under settings with the
    request's key (when the two key families cannot meet), and the two
    key families do meet when the provider is stored as ["sentence"].
    Two lemmas check the model itself: run back to back, the phases are
    the atomic run of [Handler], and every request can run to its
    answer. *)

From stdpp Require Import gmap relations.
From S2P Require Import Prelude JsValue JsString Entry Preferences Gemini MerriamWebster CacheKey Handler.

Module Interleaving.
Import Listener Keys.

(** ** Requests and their phases *)

(** A definition request for the word [w] (as received; the listener
    lowercases it), the settings [snap] it read, its [key]. *)
Inductive dphase :=
| DStart (w : string)
| DKey (w : string) (snap : gmap string jsval) (key : string)
| DFetch (w : string) (snap : gmap string jsval) (key : string)
| DDone (w : string) (snap : gmap string jsval) (r : response).

(** A translation request for [text]. *)
Inductive tphase :=
| TStart (text : jsval)
| TKey (text : jsval) (snap : gmap string jsval) (key : string)
| TFetch (text : jsval) (snap : gmap string jsval) (key : string)
| TDone (r : response).

Inductive request := DefReq (p : dphase) | TrReq (p : tphase).

Record world := mkWorld { store : gmap string jsval; reqs : list request }.

(** The response a handler's effects end with. *)
Definition response_of (effs : list effect) : option response :=
  match last effs with Some (ERespond r) => Some r | _ => None end.

(** The provider request of a definition lookup, from the settings read. *)
Definition plan_of (snap : gmap string jsval) (w : string) (net : network) : api_plan :=
  api_request (js_or (setting snap "preferredSource") (JStr "cambridge")) (setting snap "mwApiKey")
    (js_or (setting snap "targetLanguage") (JStr "none")) (to_lower w) net.

(** One callback of a definition request on the storage [st]; [net] is
    the outcome of the fetches when the promise settles.  [None]: the
    phase has no callback left. *)
Definition dstep (st : gmap string jsval) (p : dphase) (net : network) : option (dphase * gmap string jsval) :=
  match p with
  | DStart w => Some (DKey w st (lookup_key st w), st)
  | DKey w snap key =>
      if js_truthy (setting st key) then Some (DDone w snap (RSuccess (setting st key) (tts_of snap)), st)
      else match plan_of snap w net with
           | MissingKey => Some (DDone w snap (RError "Merriam-Webster API key is not set."), st)
           | Request _ _ => Some (DFetch w snap key, st)
           end
  | DFetch w snap key =>
      match plan_of snap w net with
      | MissingKey => None
      | Request _ r =>
          let '(effs, st') := finish st key (storage_get snap settings_keys) (tts_of snap) r in
          match response_of effs with Some resp => Some (DDone w snap resp, st') | None => None end
      end
  | DDone _ _ _ => None
  end.

Definition no_language_msg : string := "Please select a target language in options setting to proceed".

(** One callback of a translation request. *)
Definition tstep (st : gmap string jsval) (p : tphase) (net : network) : option (tphase * gmap string jsval) :=
  match p with
  | TStart text =>
      let tl := setting st "targetLanguage" in
      if negb (js_truthy tl) || js_eq_str tl "none" then Some (TDone (RNoLanguage no_language_msg), st)
      else Some (TKey text st (Keys.sentence_cache_key text tl), st)
  | TKey text snap key =>
      if js_truthy (setting st key) then Some (TDone (RSuccess (setting st key) (tts_of snap)), st)
      else Some (TFetch text snap key, st)
  | TFetch text snap key =>
      match translation net (translate_url text (setting snap "targetLanguage")) with
      | Normal data => Some (TDone (RSuccess data (tts_of snap)), <[key := data]> st)
      | Throw e => Some (TDone (RError (error_message e)), st)
      end
  | TDone _ => None
  end.

(** Up to [fuel] callbacks of one request, with no other request or
    settings write in between, under one network outcome. *)
Fixpoint run_phases {P} (stepf : gmap string jsval -> P -> network -> option (P * gmap string jsval))
    (fuel : nat) (st : gmap string jsval) (p : P) (net : network) : P * gmap string jsval :=
  match fuel with
  | O => (p, st)
  | S n => match stepf st p net with Some (p', st') => run_phases stepf n st' p' net | None => (p, st) end
  end.

(** ** The step relation *)

Inductive step : world -> world -> Prop :=
| step_def_new W w :
    step W (mkWorld (store W) (reqs W ++ [DefReq (DStart w)]))
| step_tr_new W text :
    step W (mkWorld (store W) (reqs W ++ [TrReq (TStart text)]))
| step_def W i p p' st' net :
    reqs W !! i = Some (DefReq p) -> dstep (store W) p net = Some (p', st') ->
    step W (mkWorld st' (<[i := DefReq p']> (reqs W)))
| step_tr W i p p' st' net :
    reqs W !! i = Some (TrReq p) -> tstep (store W) p net = Some (p', st') ->
    step W (mkWorld st' (<[i := TrReq p']> (reqs W)))
| step_setting W k v :
    k ∈ settings_keys -> step W (mkWorld (<[k := v]> (store W)) (reqs W)).

(** A fresh start: storage holds settings only, no request is pending. *)
Definition initial (W : world) : Prop :=
  reqs W = [] /\ forall k v, store W !! k = Some v -> k ∈ settings_keys.

(** A request that has answered. *)
Definition request_done (rq : request) : bool :=
  match rq with DefReq (DDone _ _ _) | TrReq (TDone _) => true | _ => false end.

(** The callbacks a request has left. *)
Definition request_rank (rq : request) : nat :=
  match rq with
  | DefReq (DStart _) | TrReq (TStart _) => 3
  | DefReq (DKey _ _ _) | TrReq (TKey _ _ _) => 2
  | DefReq (DFetch _ _ _) | TrReq (TFetch _ _ _) => 1
  | DefReq (DDone _ _ _) | TrReq (TDone _) => 0
  end.

(** A network where every request is rejected. *)
Definition offline : network := mkNetwork (fun _ => FetchReject "Failed to fetch") true.

(** ** Schedules

    An executable scheduler: a list of actions (a new request, one
    callback of request [i] under a network outcome, a write of a
    setting), replayed on a world. *)

Inductive action :=
| ANewDef (w : string)
| ANewTr (text : jsval)
| AAdvance (i : nat) (net : network)
| ASet (k : string) (v : jsval).

Definition advance (W : world) (i : nat) (net : network) : option world :=
  match reqs W !! i with
  | Some (DefReq p) =>
      match dstep (store W) p net with
      | Some (p', st') => Some (mkWorld st' (<[i := DefReq p']> (reqs W)))
      | None => None
      end
  | Some (TrReq p) =>
      match tstep (store W) p net with
      | Some (p', st') => Some (mkWorld st' (<[i := TrReq p']> (reqs W)))
      | None => None
      end
  | None => None
  end.

Definition act (W : world) (a : action) : option world :=
  match a with
  | ANewDef w => Some (mkWorld (store W) (reqs W ++ [DefReq (DStart w)]))
  | ANewTr text => Some (mkWorld (store W) (reqs W ++ [TrReq (TStart text)]))
  | AAdvance i net => advance W i net
  | ASet k v => if bool_decide (k ∈ settings_keys) then Some (mkWorld (<[k := v]> (store W)) (reqs W)) else None
  end.

Fixpoint run_schedule (W : world) (acts : list action) : option world :=
  match acts with
  | [] => Some W
  | a :: acts' => match act W a with Some W' => run_schedule W' acts' | None => None end
  end.

(** A lookup of "pick up" whose settings change while it fetches, and a
    translation with no target language. *)
Definition sample_W0 : world := mkWorld gemini_store [].

Definition sample_schedule : list action :=
  [ANewDef "pick up"; AAdvance 0 offline; ASet "exampleCount" (JNum 2); AAdvance 0 offline;
   ANewTr (JStr "Hello there"); AAdvance 0 offline_cambridge_net; AAdvance 1 translate_net].

Definition sample_W : world := default sample_W0 (run_schedule sample_W0 sample_schedule).

(** A provider stored as ["sentence"]: a translation of
    "hello_undefined_undefined", then a lookup of "hello". *)
Definition collide_W0 : world :=
  mkWorld (<["preferredSource" := JStr "sentence"]> (<["targetLanguage" := JStr "vi"]> ∅)) [].

Definition collide_schedule : list action :=
  [ANewTr (JStr "hello_undefined_undefined"); AAdvance 0 translate_net; AAdvance 0 translate_net;
   AAdvance 0 translate_net; ANewDef "hello"; AAdvance 1 offline; AAdvance 1 offline].

Definition collide_W : world := default collide_W0 (run_schedule collide_W0 collide_schedule).

(** ** The invariant *)

(** A cached value is coherent with its key: the display projection of an
    entry under settings whose key it is, or a translation under a
    sentence key. *)
Definition coherent (k : string) (v : jsval) : Prop :=
  (exists snap w d, lookup_key snap w = k /\
     Display.applyDisplayPreferences d (storage_get snap settings_keys) = Normal v) \/
  (exists text tl, Keys.sentence_cache_key text tl = k).

Definition store_ok (st : gmap string jsval) : Prop :=
  forall k v, st !! k = Some v -> k ∈ settings_keys \/ coherent k v.

Definition dphase_ok (p : dphase) : Prop :=
  match p with
  | DStart _ => True
  | DKey w snap key => key = lookup_key snap w
  | DFetch w snap key => key = lookup_key snap w /\ forall net, plan_of snap w net <> MissingKey
  | DDone w snap r => forall v t, r = RSuccess v t -> coherent (lookup_key snap w) v
  end.

Definition tphase_ok (p : tphase) : Prop :=
  match p with
  | TKey text snap key | TFetch text snap key =>
      key = Keys.sentence_cache_key text (setting snap "targetLanguage")
  | _ => True
  end.

Definition request_ok (r : request) : Prop :=
  match r with DefReq p => dphase_ok p | TrReq p => tphase_ok p end.

Definition world_ok (W : world) : Prop := store_ok (store W) /\ Forall request_ok (reqs W).

(** The provider as printed in the display key. *)
Definition source_name (snap : gmap string jsval) : string :=
  js_to_string (js_or (setting snap "preferredSource") (JStr "cambridge")).

(** ** Sequential runs are the atomic runs of [Handler] *)

Lemma response_of_snoc pre r : response_of (pre ++ [ERespond r]) = Some r.
Proof. unfold response_of. by rewrite last_snoc. Qed.

Lemma response_of_finish pre st key settings tts r :
  response_of (pre ++ fst (finish st key settings tts r)) = response_of (fst (finish st key settings tts r)) /\
  exists resp, response_of (fst (finish st key settings tts r)) = Some resp.
Proof.
  destruct (finish_cases st key settings tts r) as [[m ->]|(? & v & _ & _ & ->)]; cbn [fst].
  - rewrite !response_of_snoc. eauto.
  - change [ESet key v; ERespond (RSuccess v tts)] with ([ESet key v] ++ [ERespond (RSuccess v tts)]).
    rewrite app_assoc, !response_of_snoc. eauto.
Qed.

(** Run back to back, with no other callback in between, the phases
    of a definition request are the atomic run of [Handler]: after at most
    three callbacks the request has answered the response the atomic run
    ends with, and the storage is the one it leaves. *)
Lemma dphases_sequential st w net :
  exists r, response_of (effects (getDefinition_run st w net)) = Some r /\
    run_phases dstep 3 st (DStart w) net = (DDone w st r, storage_after (getDefinition_run st w net)).
Proof.
  unfold getDefinition_run. cbn [run_phases dstep].
  destruct (js_truthy (setting st (lookup_key st w))); cbn [effects storage_after run_phases].
  { eexists. split; [apply response_of_snoc|done]. }
  fold (plan_of st w net). destruct (plan_of st w net) as [|urls r] eqn:Hp;
    cbn [effects storage_after run_phases].
  { eexists. split; [apply response_of_snoc|done]. }
  cbn [dstep]. rewrite Hp.
  destruct (response_of_finish ([EGet settings_keys; EGet [lookup_key st w]] ++ map EFetch urls)
              st (lookup_key st w) (storage_get st settings_keys) (tts_of st) r) as [Hlast [resp Hresp]].
  destruct (finish _ _ _ _ _) as [effs st']. cbn [fst effects storage_after] in *.
  rewrite Hresp. cbn [run_phases]. exists resp. split; [|done].
  by rewrite app_assoc, Hlast.
Qed.

(** ** The invariant is inductive *)

Lemma store_ok_insert st k v : store_ok st -> coherent k v -> store_ok (<[k := v]> st).
Proof.
  intros Hst Hc k' v'. destruct (decide (k = k')) as [<-|Hne].
  - rewrite lookup_insert_eq. intros [= <-]. by right.
  - rewrite lookup_insert_ne by done. apply Hst.
Qed.

Lemma setting_truthy_lookup st k : js_truthy (setting st k) = true -> st !! k = Some (setting st k).
Proof. unfold setting. by destruct (st !! k). Qed.

Lemma store_ok_hit st snap w :
  store_ok st -> js_truthy (setting st (lookup_key snap w)) = true ->
  coherent (lookup_key snap w) (setting st (lookup_key snap w)).
Proof.
  intros Hst Hc. destruct (Hst _ _ (setting_truthy_lookup _ _ Hc)) as [Hin|]; [|done].
  by destruct (lookup_key_not_setting snap w).
Qed.

Lemma plan_of_missing snap w net net' : plan_of snap w net = MissingKey -> plan_of snap w net' = MissingKey.
Proof.
  unfold plan_of, api_request.
  destruct (js_eq_str _ "gemini"); [by destruct (is_phrase _)|].
  destruct (js_eq_str _ "merriam-webster"); [|done]. by destruct (negb _).
Qed.

Lemma dstep_ok st p net p' st' :
  store_ok st -> dphase_ok p -> dstep st p net = Some (p', st') -> store_ok st' /\ dphase_ok p'.
Proof.
  intros Hst Hp. destruct p as [w|w snap key|w snap key|]; cbn [dstep dphase_ok] in *.
  - intros [= <- <-]. done.
  - subst key. destruct (js_truthy _) eqn:Hc.
    { intros [= <- <-]. split; [done|]. intros v t [= <- _]. by apply store_ok_hit. }
    destruct (plan_of snap w net) eqn:Hplan; intros [= <- <-]; split; try done.
    split; [done|]. intros net' Hm. rewrite (plan_of_missing snap w net' net Hm) in Hplan. discriminate.
  - destruct Hp as [-> _]. destruct (plan_of snap w net) as [|urls r]; [done|].
    destruct (finish_cases st (lookup_key snap w) (storage_get snap settings_keys) (tts_of snap) r)
      as [[m ->]|(fullData & v & _ & Hf & ->)]; cbn [response_of last]; intros [= <- <-].
    + split; [done|]. by intros ? ? ?.
    + assert (Hcoh : coherent (lookup_key snap w) v)
        by (left; exists snap, w, fullData; split; [done|by apply final_data_normal]).
      split; [by apply store_ok_insert|]. by intros ? ? [= <- _].
  - done.
Qed.

Lemma tstep_ok st p net p' st' :
  store_ok st -> tphase_ok p -> tstep st p net = Some (p', st') -> store_ok st' /\ tphase_ok p'.
Proof.
  intros Hst Hp. destruct p as [text|text snap key|text snap key|]; cbn [tstep tphase_ok] in *.
  - destruct (_ || _); intros [= <- <-]; done.
  - destruct (js_truthy _); intros [= <- <-]; done.
  - destruct (translation _ _) as [data|e]; intros [= <- <-]; split; try done.
    apply store_ok_insert; [done|]. right. subst key. eauto.
  - done.
Qed.

Lemma step_ok W W' : world_ok W -> step W W' -> world_ok W'.
Proof.
  intros [Hst Hreqs] Hstep. destruct Hstep as [W w|W text|W i p p' st' net Hi Hd|W i p p' st' net Hi Hd|W k v Hk];
    unfold world_ok; cbn [store reqs].
  - split; [done|]. apply Forall_app; split; [done|]. by repeat constructor.
  - split; [done|]. apply Forall_app; split; [done|]. by repeat constructor.
  - pose proof (proj1 (Forall_lookup _ _) Hreqs i _ Hi) as Hp.
    destruct (dstep_ok _ _ _ _ _ Hst Hp Hd) as [Hst' Hp'].
    split; [done|]. by apply Forall_insert.
  - pose proof (proj1 (Forall_lookup _ _) Hreqs i _ Hi) as Hp.
    destruct (tstep_ok _ _ _ _ _ Hst Hp Hd) as [Hst' Hp'].
    split; [done|]. by apply Forall_insert.
  - split; [|done]. intros k' v'. destruct (decide (k = k')) as [<-|Hne].
    + by left.
    + rewrite lookup_insert_ne by done. apply Hst.
Qed.

Lemma initial_ok W : initial W -> world_ok W.
Proof. intros [Hr Hst]. split; [|by rewrite Hr]. intros k v Hk. left. by eapply Hst. Qed.

Lemma rtc_step_ok W W' : rtc step W W' -> world_ok W -> world_ok W'.
Proof. induction 1 as [|W1 W2 W3 Hs _ IH]; [done|]. intros H. apply IH. by eapply step_ok. Qed.

Lemma reachable_ok W0 W : initial W0 -> rtc step W0 W -> world_ok W.
Proof. intros H0 Hr. by eapply rtc_step_ok, initial_ok. Qed.

(** The two key families meet only through the provider: a display key
    is a sentence key only if the provider prints as ["sentence"] or
    contains [_]. *)
Lemma display_sentence_disjoint snap w text tl :
  no_underscore (source_name snap) = true -> source_name snap <> "sentence" ->
  Keys.sentence_cache_key text tl <> lookup_key snap w.
Proof.
  intros Hu Hs Heq. unfold Keys.sentence_cache_key, lookup_key, Keys.display_key in Heq.
  change ("qdp_sentence_" +:+ ?x) with ("qdp_" +:+ ("sentence" +:+ "_" +:+ x)) in Heq.
  apply string_app_inj_l in Heq.
  destruct (string_split_l _ _ _ _ (eq_refl : no_underscore "sentence" = true) Hu Heq) as [E _].
  by apply Hs.
Qed.

(** C10. Under every interleaving of definition requests, translation
    requests and writes of the settings, starting from a storage that
    holds settings only, every stored value other than a setting is
    coherent with its key: the display projection of some entry value
    under settings whose display key it is, or any value under a sentence
    key. *)
Theorem cache_coherent_reachable W0 W k v :
  initial W0 -> rtc step W0 W -> store W !! k = Some v -> k ∈ settings_keys \/ coherent k v.
Proof. intros H0 Hr. by apply (reachable_ok W0 W H0 Hr). Qed.

(** C11. Under every interleaving, every successful answer to a
    definition request is the display projection of an entry under
    settings whose display key is the request's own key (the key derived
    from the settings the request read), even when another request wrote
    the cached value; provided the provider's name cannot make the key a
    sentence key. *)
Theorem definition_answer_projected W0 W i w snap v t :
  initial W0 -> rtc step W0 W -> reqs W !! i = Some (DefReq (DDone w snap (RSuccess v t))) ->
  no_underscore (source_name snap) = true -> source_name snap <> "sentence" ->
  exists snap' w' d, lookup_key snap' w' = lookup_key snap w /\
    Display.applyDisplayPreferences d (storage_get snap' settings_keys) = Normal v.
Proof.
  intros H0 Hr Hi Hu Hs. destruct (reachable_ok W0 W H0 Hr) as [_ Hreqs].
  pose proof (proj1 (Forall_lookup _ _) Hreqs i _ Hi) as Hp. cbn in Hp.
  destruct (Hp v t eq_refl) as [Hd|(text & tl & Heq)]; [done|].
  by destruct (display_sentence_disjoint snap w text tl Hu Hs).
Qed.

(** ** Schedules are executions *)

Lemma act_step W a W' : act W a = Some W' -> step W W'.
Proof.
  destruct a as [w|text|i net|k v]; cbn [act].
  - intros [= <-]. apply step_def_new.
  - intros [= <-]. apply step_tr_new.
  - unfold advance. destruct (reqs W !! i) as [[p|p]|] eqn:Hi; [| |done].
    + destruct (dstep (store W) p net) as [[p' st']|] eqn:Hd; [|done]. intros [= <-]. by eapply step_def.
    + destruct (tstep (store W) p net) as [[p' st']|] eqn:Hd; [|done]. intros [= <-]. by eapply step_tr.
  - case_bool_decide; [|done]. intros [= <-]. by apply step_setting.
Qed.

Lemma run_schedule_rtc W acts W' : run_schedule W acts = Some W' -> rtc step W W'.
Proof.
  induction acts as [|a acts IH] in W |- *; cbn [run_schedule]; [by intros [= <-]|].
  destruct (act W a) as [W1|] eqn:Ha; [|done]. intros H. eapply rtc_l; [by eapply act_step|]. by apply IH.
Qed.


Lemma initial_settings_only (st : gmap string jsval) :
  (forall k v, st !! k = Some v -> k ∈ settings_keys) -> initial (mkWorld st []).
Proof. done. Qed.

Lemma settings_only_insert (st : gmap string jsval) k v :
  k ∈ settings_keys -> (forall k' v', st !! k' = Some v' -> k' ∈ settings_keys) ->
  forall k' v', <[k := v]> st !! k' = Some v' -> k' ∈ settings_keys.
Proof.
  intros Hk Hst k' v'. destruct (decide (k = k')) as [<-|Hne]; [done|].
  rewrite lookup_insert_ne by done. apply Hst.
Qed.

Ltac solve_initial :=
  apply initial_settings_only;
  repeat (apply settings_only_insert; [apply (bool_decide_unpack _); vm_compute; reflexivity|]);
  intros ? ? Hk; by rewrite lookup_empty in Hk.


Lemma collide_W0_initial : initial collide_W0.
Proof. unfold collide_W0. solve_initial. Qed.


Lemma collide_W_reachable : rtc step collide_W0 collide_W.
Proof. apply (run_schedule_rtc _ collide_schedule). vm_compute. reflexivity. Qed.

(** ** Every request can run to its answer *)

Lemma request_progress W i rq :
  world_ok W -> reqs W !! i = Some rq -> request_done rq = false ->
  exists rq' st', step W (mkWorld st' (<[i := rq']> (reqs W))) /\ request_rank rq' < request_rank rq.
Proof.
  intros [Hst Hreqs] Hi Hnd. pose proof (proj1 (Forall_lookup _ _) Hreqs i _ Hi) as Hok.
  destruct rq as [[w|w snap key|w snap key|w snap r]|[text|text snap key|text snap key|r]];
    try discriminate; cbn [request_ok dphase_ok tphase_ok] in Hok.
  { eexists _, _. split; [eapply (step_def _ _ _ _ _ offline Hi); reflexivity|]. cbn; lia. }
  { destruct (dstep (store W) (DKey w snap key) offline) as [[p' st']|] eqn:Hd.
    - exists (DefReq p'), st'. split; [by eapply step_def|].
      revert Hd. cbn [dstep]. destruct (js_truthy _); [intros [= <- _]; cbn; lia|].
      destruct (plan_of _ _ _); intros [= <- _]; cbn; lia.
    - revert Hd. cbn [dstep]. destruct (js_truthy _); [done|]. by destruct (plan_of _ _ _). }
  { destruct Hok as [_ Hplan].
    destruct (plan_of snap w offline) as [|urls r] eqn:Hp; [by destruct (Hplan offline)|].
    destruct (response_of_finish [] (store W) key (storage_get snap settings_keys) (tts_of snap) r)
      as [_ [resp Hresp]].
    destruct (finish (store W) key (storage_get snap settings_keys) (tts_of snap) r) as [effs st'] eqn:Hf.
    exists (DefReq (DDone w snap resp)), st'. split; [|cbn; lia].
    eapply (step_def _ _ _ _ _ offline Hi). cbn [dstep]. rewrite Hp, Hf. cbn in Hresp. by rewrite Hresp. }
  all: match goal with _ : reqs _ !! _ = Some (TrReq ?p) |- _ =>
         destruct (tstep (store W) p offline) as [[p' st']|] eqn:Hd end;
    [exists (TrReq p'), st'; split; [by eapply step_tr|]; revert Hd; cbn [tstep]|revert Hd; cbn [tstep]].
  all: first [destruct (_ || _) | destruct (js_truthy _) | destruct (translation _ _)];
    first [intros [= <- _]; cbn; lia | intros [=]].
Qed.

Lemma request_completes_from n W i rq :
  request_rank rq <= n -> world_ok W -> reqs W !! i = Some rq ->
  exists W', rtc step W W' /\ exists rq', reqs W' !! i = Some rq' /\ request_done rq' = true.
Proof.
  induction n as [|n IH] in W, rq |- *; intros Hr Hok Hi.
  all: destruct (request_done rq) eqn:Hd; [exists W; split; [done|eauto]|].
  - destruct rq as [[]|[]]; cbn in Hr, Hd; first [lia | discriminate].
  - destruct (request_progress W i rq Hok Hi Hd) as (rq' & st' & Hs & Hlt).
    destruct (IH (mkWorld st' (<[i := rq']> (reqs W))) rq') as (W' & Hr' & Hfin).
    + lia.
    + by eapply step_ok.
    + cbn [reqs]. apply list_lookup_insert_eq. by eapply lookup_lt_Some.
    + exists W'. split; [|done]. by eapply rtc_l.
Qed.

(** Progress: in every reachable world, every pending request,
    definition or translation, can run to its answer: some sequence of
    steps (its own remaining callbacks, at most three) leads to a world
    where it has answered. *)
Lemma request_completes W0 W i rq :
  initial W0 -> rtc step W0 W -> reqs W !! i = Some rq ->
  exists W', rtc step W W' /\ exists rq', reqs W' !! i = Some rq' /\ request_done rq' = true.
Proof.
  intros H0 Hr Hi. apply (request_completes_from (request_rank rq) W i rq); [done| |done].
  by eapply reachable_ok.
Qed.

Lemma applyDisplayPreferences_definition d settings v :
  Display.applyDisplayPreferences d settings = Normal v ->
  exists fs x, v = JObj fs /\ assoc_lookup "definition" fs = Some x.
Proof.
  unfold Display.applyDisplayPreferences. intros H. inv_cbind.
  eexists _, _. split; [reflexivity|]. apply assoc_lookup_set_field_eq.
Qed.

(** C12. The two key families are not disjoint: with the provider stored
    as ["sentence"], a translation of "hello_undefined_undefined" into
    ["vi"] is cached under the very key a lookup of "hello" reads, and the
    lookup answers the translation object, which is no display projection
    of any entry (it has no [definition]). *)
Theorem key_families_collide :
  initial collide_W0 /\ rtc step collide_W0 collide_W /\
  exists snap v t, reqs collide_W !! 1 = Some (DefReq (DDone "hello" snap (RSuccess v t))) /\
    forall d settings, Display.applyDisplayPreferences d settings <> Normal v.
Proof.
  split; [apply collide_W0_initial|]. split; [apply collide_W_reachable|].
  exists (store collide_W), (JObj [("translation", JStr "xin chao")]), (JBool false).
  split; [vm_compute; reflexivity|].
  intros d settings (fs & x & [= <-] & Hx)%applyDisplayPreferences_definition. discriminate.
Qed.

(** ** Witnesses *)

Lemma cache_coherent_reachable_witness :
  lookup_key gemini_store "pick up" ∈ settings_keys \/
  coherent (lookup_key gemini_store "pick up")
    (to_js (Display.project (Display.mkPrefs Display.Relevant 1)
              (GeminiAdapter.adapt_gemini "run" GeminiAdapter.run_payload))).
Proof.
  apply (cache_coherent_reachable sample_W0 sample_W).
  - unfold sample_W0, gemini_store. solve_initial.
  - apply (run_schedule_rtc _ sample_schedule). vm_compute. reflexivity.
  - vm_compute. reflexivity.
Defined.

Lemma definition_answer_projected_witness :
  exists snap' w' d, lookup_key snap' w' = lookup_key gemini_store "pick up" /\
    Display.applyDisplayPreferences d (storage_get snap' settings_keys) =
    Normal (to_js (Display.project (Display.mkPrefs Display.Relevant 1)
                     (GeminiAdapter.adapt_gemini "run" GeminiAdapter.run_payload))).
Proof.
  apply (definition_answer_projected sample_W0 sample_W 0 "pick up" gemini_store _ (JBool false)).
  - unfold sample_W0, gemini_store. solve_initial.
  - apply (run_schedule_rtc _ sample_schedule). vm_compute. reflexivity.
  - vm_compute. reflexivity.
  - vm_compute. reflexivity.
  - vm_compute. discriminate.
Defined.

End Interleaving.
